(** * Library management system: the transaction lifecycle engine

    A shallow embedding of the borrow / renew / return workflow:
    - [models/Book.js]         (module [Book]),
    - [models/Transaction.js]  (module [Transaction]),
    - [routes/transactions.js] (module [Routes]),
    - [services/automationService.js] (module [AutomationService]).

    Dates are milliseconds since the epoch ([Date.prototype.getTime]), as
    integers.  Every operation receives the reading [now] of the clock; one
    request, and one run of the sweep, reads the clock once.  Copy counts,
    fines and renewal counts are integers: the catalogue route takes
    [totalCopies] with [isInt] and the engine only adds or subtracts 1.
    Collections are finite maps keyed by [_id].  Mongoose documents are
    records; a path that was not loaded (or holds [NaN]) is [None].
    Requests are taken after [express-validator] accepted them and after the
    authentication middleware set [req.user]. *)

From stdpp Require Import gmap strings list fin_maps.
From Stdlib Require Import ZArith Lia.

Open Scope Z_scope.

(** ** JavaScript values *)

Module JS.

(** A number-valued property.  [None] stands for [undefined] and for
    [NaN]: both make every comparison false and turn every sum into
    [NaN]. *)
Definition number : Type := option Z.

(** [a < b] *)
Definition lt (a b : number) : bool :=
  match a, b with
  | Some x, Some y => x <? y
  | _, _ => false
  end.

(** [a > b] *)
Definition gt (a b : number) : bool := lt b a.

(** [a + k] for a literal [k] *)
Definition add (a : number) (k : Z) : number := (λ x, x + k) <$> a.

(** truthiness of a boolean-valued property; [undefined] is falsy *)
Definition truthy (b : option bool) : bool := default false b.

(** [1000 * 60 * 60 * 24] *)
Definition day_ms : Z := 1000 * 60 * 60 * 24.

(** [14 * 24 * 60 * 60 * 1000] *)
Definition loan_ms : Z := 14 * 24 * 60 * 60 * 1000.

(** [Math.ceil(a / b)] on integers, [b > 0] *)
Definition ceil_div (a b : Z) : Z := - ((- a) / b).

End JS.

(** What an [async] method produces: a value, or a thrown [Error] (a
    rejected promise) with its message. *)
Inductive Result (A : Type) : Type :=
  | Ok (a : A)
  | Throw (msg : string).
Arguments Ok {A} a.
Arguments Throw {A} msg.

(** ** models/Book.js *)

Module Book.

(** The inventory paths of [bookSchema]; the catalogue paths (title,
    author, isbn, ...) play no part in the engine. *)
Record doc : Type := mk {
  isActive : option bool;
  totalCopies : JS.number;
  availableCopies : JS.number;
  borrowCount : JS.number;
  lastBorrowed : option Z
}.

Definition set_availableCopies (a : JS.number) (b : doc) : doc :=
  mk (isActive b) (totalCopies b) a (borrowCount b) (lastBorrowed b).

(** Schema validators of the inventory paths, run by [save] before the
    [pre('save')] hooks: both paths [required], [totalCopies] in
    [1..1000], [availableCopies] at least [0].  Every [save] of a book in
    the code base is on a document loaded in full or built in full. *)
Definition validate (b : doc) : bool :=
  match totalCopies b, availableCopies b with
  | Some t, Some a => (1 <=? t) && (t <=? 1000) && (0 <=? a)
  | _, _ => false
  end.

(** [bookSchema.pre('save')]: available copies never exceed the total. *)
Definition pre_save (b : doc) : doc :=
  if JS.gt (availableCopies b) (totalCopies b)
  then set_availableCopies (totalCopies b) b
  else b.

(** [save()]: the document as it is written to the collection. *)
Definition save (b : doc) : Result doc :=
  if validate b then Ok (pre_save b) else Throw "ValidationError".

(** [bookSchema.methods.canBorrow] *)
Definition canBorrow (b : doc) : bool :=
  JS.truthy (isActive b) && JS.gt (availableCopies b) (Some 0).

(** [bookSchema.methods.borrowBook] *)
Definition borrowBook (now : Z) (b : doc) : Result doc :=
  if canBorrow b then
    save (mk (isActive b) (totalCopies b)
             (JS.add (availableCopies b) (-1))
             (JS.add (borrowCount b) 1)
             (Some now))
  else Throw "Book cannot be borrowed".

(** [bookSchema.methods.returnBook] *)
Definition returnBook (b : doc) : Result doc :=
  if JS.lt (availableCopies b) (totalCopies b) then
    save (set_availableCopies (JS.add (availableCopies b) 1) b)
  else Throw "All copies are already available".

(** [.populate('book', 'title author isbn')]: the populated document
    carries the three selected catalogue paths and [_id] only; every
    inventory path reads [undefined]. *)
Definition select_title_author_isbn (b : doc) : doc :=
  mk None None None None None.

(** The inventory bound of a stored book. *)
Definition inventory_ok (b : doc) : Prop :=
  ∃ a t, availableCopies b = Some a ∧ totalCopies b = Some t ∧ 0 <= a <= t.

(** [bookSchema.virtual('isAvailable')] *)
Definition isAvailable (b : doc) : bool := JS.gt (availableCopies b) (Some 0).

Definition set_isActive (a : option bool) (b : doc) : doc :=
  mk a (totalCopies b) (availableCopies b) (borrowCount b) (lastBorrowed b).

End Book.

(** ** models/User.js *)

Module User.

Inductive Role : Type := admin | member.

#[global] Instance Role_eq_dec : EqDecision Role.
Proof. solve_decision. Defined.

(** Modelled from the spec: models/User.js is missing; section 3 gives a
    user account a role ([admin] or [member]) and a soft-deactivation
    flag, the one [routes/users.js] clears with [user.isActive = false]. *)
Record doc : Type := mk {
  role : Role;
  isActive : bool
}.

End User.

(** ** models/Transaction.js *)

Module Transaction.

Inductive Status : Type := active | returned | overdue | renewed.

Inductive Kind : Type := borrow | return_ | renewal.

#[global] Instance Status_eq_dec : EqDecision Status.
Proof. solve_decision. Defined.

#[global] Instance Kind_eq_dec : EqDecision Kind.
Proof. solve_decision. Defined.

(** [transactionSchema]; [type] is the schema's path [type]. *)
Record doc : Type := mk {
  user : nat;
  book : nat;
  type : Kind;
  borrowDate : Z;
  dueDate : Z;
  returnDate : option Z;
  status : Status;
  fineAmount : Z;
  renewalCount : Z;
  processedBy : nat
}.

Definition set_dueDate (d : Z) (t : doc) : doc :=
  mk (user t) (book t) (type t) (borrowDate t) d (returnDate t)
     (status t) (fineAmount t) (renewalCount t) (processedBy t).

Definition set_returnDate (r : option Z) (t : doc) : doc :=
  mk (user t) (book t) (type t) (borrowDate t) (dueDate t) r
     (status t) (fineAmount t) (renewalCount t) (processedBy t).

Definition set_status (s : Status) (t : doc) : doc :=
  mk (user t) (book t) (type t) (borrowDate t) (dueDate t) (returnDate t)
     s (fineAmount t) (renewalCount t) (processedBy t).

Definition set_fineAmount (f : Z) (t : doc) : doc :=
  mk (user t) (book t) (type t) (borrowDate t) (dueDate t) (returnDate t)
     (status t) f (renewalCount t) (processedBy t).

Definition set_renewalCount (n : Z) (t : doc) : doc :=
  mk (user t) (book t) (type t) (borrowDate t) (dueDate t) (returnDate t)
     (status t) (fineAmount t) n (processedBy t).

(** [new Transaction({user, book, type, dueDate, processedBy})] with the
    schema defaults: [borrowDate: Date.now], [returnDate: null],
    [status: 'active'], [fineAmount: 0], [renewalCount: 0]. *)
Definition new (now : Z) (u b : nat) (k : Kind) (due : Z) (by_ : nat) : doc :=
  mk u b k now due None active 0 0 by_.

(** Schema validators: [fineAmount] has [min: 0], [renewalCount] has
    [max: 3]. *)
Definition validate (t : doc) : bool :=
  (0 <=? fineAmount t) && (renewalCount t <=? 3).

(** First [pre('save')] hook: a new borrow is due 14 days after its
    borrow date. *)
Definition pre_save_dueDate (isNew : bool) (t : doc) : doc :=
  if isNew && bool_decide (type t = borrow)
  then set_dueDate (borrowDate t + JS.loan_ms) t
  else t.

(** Second [pre('save')] hook: an active transaction past its due date
    and without a return date becomes overdue. *)
Definition pre_save_status (now : Z) (t : doc) : doc :=
  if bool_decide (status t = active) && (dueDate t <? now)
     && bool_decide (returnDate t = None)
  then set_status overdue t
  else t.

(** [save()]: validation, then the two hooks in the order they are
    registered; the result is the document as written. *)
Definition save (isNew : bool) (now : Z) (t : doc) : Result doc :=
  if validate t
  then Ok (pre_save_status now (pre_save_dueDate isNew t))
  else Throw "ValidationError".

(** [transactionSchema.methods.calculateFine]: the document after the
    call (the returned number is its [fineAmount]). *)
Definition calculateFine (now : Z) (t : doc) : doc :=
  if bool_decide (status t = overdue) then
    let daysOverdue := JS.ceil_div (now - dueDate t) JS.day_ms in
    let finePerDay := 1 in
    set_fineAmount (daysOverdue * finePerDay) t
  else t.

(** [transactionSchema.methods.renewBook] *)
Definition renewBook (now : Z) (t : doc) : Result doc :=
  if 3 <=? renewalCount t then Throw "Maximum renewals reached"
  else if negb (bool_decide (status t = active))
  then Throw "Only active transactions can be renewed"
  else
    save false now
      (set_status renewed
         (set_dueDate (dueDate t + JS.loan_ms)
            (set_renewalCount (renewalCount t + 1) t))).

(** [transactionSchema.methods.returnBook] *)
Definition returnBook (now : Z) (t : doc) : Result doc :=
  if bool_decide (status t = returned) then Throw "Book already returned"
  else
    save false now
      (calculateFine now (set_status returned (set_returnDate (Some now) t))).

(** [Transaction.find(query)]: the matching documents with their ids. *)
Definition find (q : doc → bool) (c : gmap nat doc) : list (nat * doc) :=
  map_to_list (filter (λ kt, q kt.2 = true) c).

(** The query of [transactionSchema.statics.findOverdue]:
    [{status: 'active', dueDate: {$lt: new Date()}}]. *)
Definition overdue_query (now : Z) (t : doc) : bool :=
  bool_decide (status t = active) && (dueDate t <? now).

Definition findOverdue (now : Z) (c : gmap nat doc) : list (nat * doc) :=
  find (overdue_query now) c.

(** [transactionSchema.virtual('daysOverdue')] *)
Definition daysOverdue (now : Z) (t : doc) : Z :=
  if bool_decide (status t = overdue) && (dueDate t <? now)
  then JS.ceil_div (now - dueDate t) JS.day_ms
  else 0.

(** [transactionSchema.virtual('daysUntilDue')] *)
Definition daysUntilDue (now : Z) (t : doc) : Z :=
  if bool_decide (status t = active) && (now <? dueDate t)
  then JS.ceil_div (dueDate t - now) JS.day_ms
  else 0.

(** [{status: {$in: ['active', 'overdue']}}] *)
Definition in_active_overdue (t : doc) : bool :=
  bool_decide (status t = active) || bool_decide (status t = overdue).

(** [transactionSchema.statics.findUserActiveTransactions] *)
Definition findUserActiveTransactions (userId : nat) (c : gmap nat doc)
    : list (nat * doc) :=
  find (λ t, bool_decide (user t = userId) && in_active_overdue t) c.

(** [transactionSchema.statics.findBookActiveTransactions] *)
Definition findBookActiveTransactions (bookId : nat) (c : gmap nat doc)
    : list (nat * doc) :=
  find (λ t, bool_decide (book t = bookId) && in_active_overdue t) c.

End Transaction.

(** ** The database and the HTTP layer *)

(** The three collections, keyed by [_id]. *)
Record DB : Type := mkDB {
  books : gmap nat Book.doc;
  users : gmap nat User.doc;
  transactions : gmap nat Transaction.doc
}.

Definition set_books (bs : gmap nat Book.doc) (db : DB) : DB :=
  mkDB bs (users db) (transactions db).

Definition set_transactions (ts : gmap nat Transaction.doc) (db : DB) : DB :=
  mkDB (books db) (users db) ts.

(** [res.status(code).json({message, ...})] *)
Record Response : Type := mkResponse {
  code : Z;
  message : string
}.

(** [req.user], as the authentication middleware leaves it. *)
Record Actor : Type := mkActor {
  actor_id : nat;
  actor_role : User.Role
}.

(** ** routes/transactions.js *)

Module Routes.

(** The two queries of the issue handler. *)
Definition overdue_of (userId : nat) (t : Transaction.doc) : bool :=
  bool_decide (Transaction.user t = userId)
  && bool_decide (Transaction.status t = Transaction.overdue).

Definition open_of (userId : nat) (t : Transaction.doc) : bool :=
  bool_decide (Transaction.user t = userId)
  && (bool_decide (Transaction.status t = Transaction.active)
      || bool_decide (Transaction.status t = Transaction.overdue)).

(** [router.post('/issue')], after request validation.  [tid] is the
    [_id] the driver gives the new transaction; inserting an [_id] that
    is taken is a duplicate-key error.  [dueDate] is the optional body
    field, parsed. *)
Definition post_issue (now : Z) (tid : nat) (actor : Actor)
    (bookId userId : nat) (dueDate : option Z) (db : DB) : Response * DB :=
  if negb (bool_decide (actor_role actor = User.admin)) then
    (mkResponse 403 "Admin access required to issue books", db)
  else
    match books db !! bookId, users db !! userId with
    | None, _ => (mkResponse 404 "Book not found", db)
    | Some _, None => (mkResponse 404 "User not found", db)
    | Some book, Some _ =>
      if negb (Book.canBorrow book) then
        (mkResponse 400 "Book is not available for borrowing", db)
      else if (0 <? length (Transaction.find (overdue_of userId) (transactions db)))%nat then
        (mkResponse 400
           "User has overdue books. Please return them before borrowing new books.", db)
      else if (5 <=? length (Transaction.find (open_of userId) (transactions db)))%nat then
        (mkResponse 400 "User has reached maximum borrowing limit (5 books)", db)
      else
        let transaction :=
          Transaction.new now userId bookId Transaction.borrow
            (match dueDate with Some d => d | None => now + JS.loan_ms end)
            (actor_id actor) in
        match Book.borrowBook now book with
        | Throw _ => (mkResponse 500 "Failed to issue book", db)
        | Ok book' =>
          let db1 := set_books (<[bookId := book']> (books db)) db in
          match Transaction.save true now transaction with
          | Throw _ => (mkResponse 500 "Failed to issue book", db1)
          | Ok transaction' =>
            match transactions db !! tid with
            | Some _ => (mkResponse 500 "Failed to issue book", db1)
            | None =>
              (mkResponse 201 "Book issued successfully",
               set_transactions (<[tid := transaction']> (transactions db)) db1)
            end
          end
        end
    end.

(** [router.post('/return')].  The transaction is loaded with
    [.populate('user', ...)] and [.populate('book', 'title author isbn')];
    a reference that does not resolve populates [null], and reading a
    property of [null] throws.  [io] tells whether a socket server is
    attached ([req.app.get('io')]). *)
Definition post_return (io : bool) (now : Z) (actor : Actor)
    (transactionId : nat) (db : DB) : Response * DB :=
  if negb (bool_decide (actor_role actor = User.admin)) then
    (mkResponse 403 "Admin access required to return books", db)
  else
    match transactions db !! transactionId with
    | None => (mkResponse 404 "Transaction not found", db)
    | Some transaction =>
      if bool_decide (Transaction.status transaction = Transaction.returned) then
        (mkResponse 400 "Book already returned", db)
      else
        match Transaction.returnBook now transaction with
        | Throw _ => (mkResponse 500 "Failed to return book", db)
        | Ok transaction' =>
          let db1 :=
            set_transactions (<[transactionId := transaction']> (transactions db)) db in
          match Book.select_title_author_isbn
                  <$> books db !! Transaction.book transaction with
          | None => (mkResponse 500 "Failed to return book", db1)
          | Some book =>
            match Book.returnBook book with
            | Throw _ => (mkResponse 500 "Failed to return book", db1)
            | Ok book' =>
              let db2 :=
                set_books (<[Transaction.book transaction := book']> (books db1)) db1 in
              if io && negb (bool_decide (is_Some (users db !! Transaction.user transaction)))
              then (mkResponse 500 "Failed to return book", db2)
              else (mkResponse 200 "Book returned successfully", db2)
            end
          end
        end
    end.

(** [router.post('/renew')].  The transaction is loaded with its [user] and
    [book] populated.  After [renewBook()] the handler emits, when a socket
    server is attached ([io]), a message that reads
    [transaction.book.title]: a book reference that did not resolve throws
    there, after the renewal was saved. *)
Definition post_renew (io : bool) (now : Z) (actor : Actor)
    (transactionId : nat) (db : DB) : Response * DB :=
  match transactions db !! transactionId with
  | None => (mkResponse 404 "Transaction not found", db)
  | Some transaction =>
    match users db !! Transaction.user transaction with
    | None => (mkResponse 500 "Failed to renew book", db)
    | Some _ =>
      if negb (bool_decide (actor_id actor = Transaction.user transaction))
         && negb (bool_decide (actor_role actor = User.admin))
      then (mkResponse 403 "You can only renew your own books", db)
      else
        match Transaction.renewBook now transaction with
        | Throw _ => (mkResponse 500 "Failed to renew book", db)
        | Ok transaction' =>
          let db1 :=
            set_transactions (<[transactionId := transaction']> (transactions db)) db in
          if io && negb (bool_decide (is_Some (books db !! Transaction.book transaction)))
          then (mkResponse 500 "Failed to renew book", db1)
          else (mkResponse 200 "Book renewed successfully", db1)
        end
    end
  end.

(** [router.get('/overdue/list')]: the answer and its [data]. *)
Definition get_overdue_list (now : Z) (actor : Actor) (db : DB)
    : Response * list (nat * Transaction.doc) :=
  if negb (bool_decide (actor_role actor = User.admin)) then
    (mkResponse 403 "Admin access required", [])
  else
    (mkResponse 200 "", Transaction.findOverdue now (transactions db)).

(** [router.get('/:id')]: the answer and its [data].  The transaction is
    loaded with its [user] populated; reading [transaction.user._id] of a
    reference that did not resolve throws, but only when the actor is not an
    admin ([&&] does not evaluate its right side then). *)
Definition get_transaction (actor : Actor) (id : nat) (db : DB)
    : Response * option Transaction.doc :=
  match transactions db !! id with
  | None => (mkResponse 404 "Transaction not found", None)
  | Some transaction =>
    if bool_decide (actor_role actor = User.admin) then
      (mkResponse 200 "", Some transaction)
    else
      match users db !! Transaction.user transaction with
      | None => (mkResponse 500 "Failed to fetch transaction", None)
      | Some _ =>
        if negb (bool_decide (Transaction.user transaction = actor_id actor)) then
          (mkResponse 403 "Access denied", None)
        else (mkResponse 200 "", Some transaction)
      end
  end.

(** The [pagination] object of [router.get('/my-transactions')] and
    [router.get('/')]. *)
Record Pagination : Type := mkPagination {
  currentPage : Z;
  totalPages : Z;
  totalTransactions : Z;
  hasNextPage : bool;
  hasPrevPage : bool
}.

(** The page arithmetic of the two list handlers, on the documents that
    match the filter in the order of the sort ([createdAt] descending):
    [.skip((page - 1) * limit).limit(limit)] and the [pagination] object.
    The validators give [page >= 1] and [1 <= limit <= 100]. *)
Definition paginate {A : Type} (page limit : Z) (sorted : list A)
    : list A * Pagination :=
  let skip := (page - 1) * limit in
  let totalTransactions := Z.of_nat (length sorted) in
  let totalPages := JS.ceil_div totalTransactions limit in
  (take (Z.to_nat limit) (drop (Z.to_nat skip) sorted),
   mkPagination page totalPages totalTransactions
     (page <? totalPages) (1 <? page)).

End Routes.

(** ** services/automationService.js *)

Module AutomationService.

(** One ['bookOverdue'] emit: the room (the borrower), the transaction
    and the [fineAmount] sent with it. *)
Record Event : Type := mkEvent {
  ev_user : nat;
  ev_transaction : nat;
  ev_fineAmount : Z
}.

(** The [for ... of] loop of [checkOverdueBooks] over the documents that
    [findOverdue] returned, populated with [user] and [book].  A throw
    inside the loop (a failed [save], or a property read on a [null]
    populated reference while emitting) reaches the one [catch] around the
    whole loop and ends the run.  The documents come in the order of
    [map_to_list]; the order only shows when a run is cut short. *)
Fixpoint sweep_loop (io : bool) (now : Z) (found : list (nat * Transaction.doc))
    (db : DB) (sent : list Event) : DB * list Event :=
  match found with
  | [] => (db, sent)
  | (id, transaction) :: rest =>
    match Transaction.save false now (Transaction.calculateFine now transaction) with
    | Throw _ => (db, sent)
    | Ok transaction' =>
      let db' := set_transactions (<[id := transaction']> (transactions db)) db in
      if io then
        match users db !! Transaction.user transaction,
              books db !! Transaction.book transaction with
        | Some _, Some _ =>
          sweep_loop io now rest db'
            (sent ++ [mkEvent (Transaction.user transaction) id
                        (Transaction.fineAmount transaction')])
        | _, _ => (db', sent)
        end
      else sweep_loop io now rest db' sent
    end
  end.

(** [AutomationService.checkOverdueBooks]: the database after the run and
    the notifications emitted. *)
Definition checkOverdueBooks (io : bool) (now : Z) (db : DB) : DB * list Event :=
  sweep_loop io now (Transaction.findOverdue now (transactions db)) db [].

(** One overdue notification (an e-mail and an SMS with the same data). *)
Record Notice : Type := mkNotice {
  no_user : nat;
  no_transaction : nat;
  no_daysOverdue : Z;
  no_fineAmount : Z
}.

(** [AutomationService.sendOverdueNotifications]: the notifications sent.
    Each document is handled inside its own [try]; a [null] populated
    [user] or [book] throws while the arguments are read and the document
    is skipped.  The two senders catch their own errors. *)
Definition sendOverdueNotifications (now : Z) (db : DB) : list Notice :=
  omap (λ '(id, transaction),
          match users db !! Transaction.user transaction,
                books db !! Transaction.book transaction with
          | Some _, Some _ =>
            Some (mkNotice (Transaction.user transaction) id
                    (JS.ceil_div (now - Transaction.dueDate transaction) JS.day_ms)
                    (Transaction.fineAmount transaction))
          | _, _ => None
          end)
       (Transaction.findOverdue now (transactions db)).

End AutomationService.

(** ** The engine as a transition system *)

Inductive Op : Type :=
  | Issue (tid : nat) (actor : Actor) (bookId userId : nat) (dueDate : option Z)
  | Return (io : bool) (actor : Actor) (transactionId : nat)
  | Renew (io : bool) (actor : Actor) (transactionId : nat)
  | Sweep (io : bool).

(** The database after one operation at clock reading [now]. *)
Definition step (now : Z) (op : Op) (db : DB) : DB :=
  match op with
  | Issue tid actor bookId userId dueDate =>
      (Routes.post_issue now tid actor bookId userId dueDate db).2
  | Return io actor transactionId =>
      (Routes.post_return io now actor transactionId db).2
  | Renew io actor transactionId =>
      (Routes.post_renew io now actor transactionId db).2
  | Sweep io => (AutomationService.checkOverdueBooks io now db).1
  end.

(** The states of the system: it starts without transactions; the engine
    runs its four operations at any clock reading; the catalogue and
    account routes create and edit books and users, and never remove one
    (deletion is a soft flag). *)
Inductive reachable : DB → Prop :=
  | reachable_init bs us : reachable (mkDB bs us ∅)
  | reachable_step db now op : reachable db → reachable (step now op db)
  | reachable_edit db bs us :
      reachable db →
      dom (books db) ⊆ dom bs →
      dom (users db) ⊆ dom us →
      reachable (mkDB bs us (transactions db)).

(** ** A small library used by the scenarios *)

Module Scenario.

Definition librarian : Actor := mkActor 9 User.admin.
Definition reader : nat := 7%nat.
Definition novel : nat := 1%nat.

(** one title with [totalCopies = 1] and [availableCopies = 1] *)
Definition db0 : DB :=
  mkDB {[ novel := Book.mk (Some true) (Some 1) (Some 1) (Some 0) None ]}
       {[ reader := User.mk User.member true;
          9%nat := User.mk User.admin true ]}
       ∅.

Definition t0 : Z := 1700000000000.

Definition issued := Routes.post_issue t0 1%nat librarian novel reader None db0.
Definition swept :=
  AutomationService.checkOverdueBooks true (t0 + 15 * JS.day_ms) issued.2.
Definition given_back :=
  Routes.post_return true (t0 + 15 * JS.day_ms) librarian 1%nat swept.1.

End Scenario.

(** ** Integrity of the stored data *)

(** What the engine keeps true of a stored transaction. *)
Definition tx_ok (t : Transaction.doc) : Prop :=
  Transaction.fineAmount t = 0
  ∧ Transaction.renewalCount t <= 3
  ∧ (Transaction.returnDate t = None ↔ Transaction.status t ≠ Transaction.returned).

(** Every stored transaction is sound and refers to a stored user and a
    stored book. *)
Definition db_ok (db : DB) : Prop :=
  ∀ id t, transactions db !! id = Some t →
    tx_ok t
    ∧ is_Some (users db !! Transaction.user t)
    ∧ is_Some (books db !! Transaction.book t).

(** Every stored book is within its inventory bound. *)
Definition books_ok (db : DB) : Prop :=
  ∀ id b, books db !! id = Some b → Book.inventory_ok b.

(** ** Further runs on the small library *)

Module Run.
Import Scenario.

(** the reader renews the day after the issue, and again a day later *)
Definition renewed_once :=
  Routes.post_renew true (t0 + JS.day_ms) (mkActor reader User.member) 1%nat issued.2.
Definition renewed_twice :=
  Routes.post_renew true (t0 + 2 * JS.day_ms) (mkActor reader User.member) 1%nat
    renewed_once.2.

(** thirty days after the issue the renewed loan is two days late *)
Definition swept_renewed :=
  AutomationService.checkOverdueBooks true (t0 + 30 * JS.day_ms) renewed_once.2.

(** an issue that asks for a due date one week ahead *)
Definition issued_for_a_week :=
  Routes.post_issue t0 1%nat librarian novel reader (Some (t0 + 7 * JS.day_ms)) db0.

(** the same library with the reader's account deactivated *)
Definition db_deactivated : DB :=
  mkDB (books db0) {[ reader := User.mk User.member false ]} ∅.
Definition issued_to_deactivated :=
  Routes.post_issue t0 1%nat librarian novel reader None db_deactivated.

End Run.

(** ** The issue preconditions as the specification orders them *)

Module Spec.

Inductive Failure : Type := NotFound | Conflict.

(** Section 4.1, in its order: the book exists and is active; the user
    exists and is active; the book has [availableCopies > 0]; the user has
    no overdue transaction; the user has fewer than 5 transactions that
    are active or overdue.  The first precondition that fails decides;
    [None] when all hold.  A missing or inactive book or user is read as
    [NotFound], the other three as [Conflict]. *)
Definition issue_first_failure (bookId userId : nat) (db : DB) : option Failure :=
  match books db !! bookId with
  | None => Some NotFound
  | Some b =>
    if negb (JS.truthy (Book.isActive b)) then Some NotFound
    else
      match users db !! userId with
      | None => Some NotFound
      | Some u =>
        if negb (User.isActive u) then Some NotFound
        else if negb (JS.gt (Book.availableCopies b) (Some 0)) then Some Conflict
        else if (0 <? length (Transaction.find (Routes.overdue_of userId)
                                (transactions db)))%nat then Some Conflict
        else if (5 <=? length (Transaction.find (Routes.open_of userId)
                                 (transactions db)))%nat then Some Conflict
        else None
      end
  end.

(** The failure a response stands for: 404 is [NotFound], 400 is how the
    handlers answer a broken business rule. *)
Definition failure_of (r : Response) : option Failure :=
  if code r =? 404 then Some NotFound
  else if code r =? 400 then Some Conflict
  else None.

End Spec.

(** ** The fine scenario as a run of the transition system *)

Module Trace.
Import Scenario.

Definition after_issue : DB :=
  step t0 (Issue 1%nat librarian novel reader None) db0.
Definition after_sweep : DB :=
  step (t0 + 15 * JS.day_ms) (Sweep true) after_issue.
Definition after_return : DB :=
  step (t0 + 15 * JS.day_ms) (Return true librarian 1%nat) after_sweep.

(** the loan as the sweep leaves it *)
Definition overdue_loan : Transaction.doc :=
  Transaction.mk reader novel Transaction.borrow t0 (t0 + JS.loan_ms) None
    Transaction.overdue 0 0 9.

(** the loan as the return leaves it *)
Definition returned_loan : Transaction.doc :=
  Transaction.mk reader novel Transaction.borrow t0 (t0 + JS.loan_ms)
    (Some (t0 + 15 * JS.day_ms)) Transaction.returned 0 0 9.

End Trace.

(** the loan of the scenario after one renewal *)
Definition renewed_loan : Transaction.doc :=
  Transaction.mk Scenario.reader Scenario.novel Transaction.borrow Scenario.t0
    (Scenario.t0 + 2 * JS.loan_ms) None Transaction.renewed 0 1 9.

(** the same library with the novel withdrawn (soft-deleted) *)
Definition db_withdrawn : DB :=
  mkDB {[ Scenario.novel := Book.mk (Some false) (Some 1) (Some 1) (Some 0) None ]}
       (users Scenario.db0) ∅.

(** ** routes/books.js *)

Module BookRoutes.

(** The inventory paths a [PUT] body can carry ([{ ...req.body }]); an
    absent field is [None]. *)
Record Body : Type := mkBody {
  body_isActive : option bool;
  body_totalCopies : option Z;
  body_availableCopies : option Z;
  body_borrowCount : option Z;
  body_lastBorrowed : option Z
}.

(** [$set] of the fields present in the update. *)
Definition apply_update (u : Body) (b : Book.doc) : Book.doc :=
  Book.mk
    (match body_isActive u with Some a => Some a | None => Book.isActive b end)
    (match body_totalCopies u with Some t => Some t | None => Book.totalCopies b end)
    (match body_availableCopies u with Some a => Some a | None => Book.availableCopies b end)
    (match body_borrowCount u with Some c => Some c | None => Book.borrowCount b end)
    (match body_lastBorrowed u with Some d => Some d | None => Book.lastBorrowed b end).

(** Update validators ([runValidators: true]) on the paths present:
    [totalCopies] in [1..1000], [availableCopies] at least [0]. *)
Definition validate_update (u : Body) : bool :=
  match body_totalCopies u with Some t => (1 <=? t) && (t <=? 1000) | None => true end
  && match body_availableCopies u with Some a => 0 <=? a | None => true end.

(** [router.put('/:id')].  The request validator wants an integer
    [totalCopies] in [1..1000] when the field is present.  When it is, the
    handler moves [availableCopies] by the same difference, not below 0;
    [findByIdAndUpdate] then sets the fields, with the update validators
    and without the [pre('save')] hook.  A stored book without
    [availableCopies] or [totalCopies] makes the sum [NaN], which the
    update rejects. *)
Definition put_book (actor : Actor) (id : nat) (body : Body) (db : DB)
    : Response * DB :=
  if match body_totalCopies body with
     | Some t => negb ((1 <=? t) && (t <=? 1000))
     | None => false
     end
  then (mkResponse 400 "Validation failed", db)
  else if negb (bool_decide (actor_role actor = User.admin)) then
    (mkResponse 403 "Admin access required", db)
  else
    match books db !! id with
    | None => (mkResponse 404 "Book not found", db)
    | Some book =>
      let updateData : option Body :=
        match body_totalCopies body with
        | None => Some body
        | Some t =>
          match Book.totalCopies book, Book.availableCopies book with
          | Some t0, Some a0 =>
            let difference := t - t0 in
            Some (mkBody (body_isActive body) (Some t)
                    (Some (Z.max 0 (a0 + difference)))
                    (body_borrowCount body) (body_lastBorrowed body))
          | _, _ => None
          end
        end in
      match updateData with
      | None => (mkResponse 500 "Failed to update book", db)
      | Some u =>
        if validate_update u then
          (mkResponse 200 "Book updated successfully",
           set_books (<[id := apply_update u book]> (books db)) db)
        else (mkResponse 500 "Failed to update book", db)
      end
    end.

(** [router.delete('/:id')]: a soft delete, refused while the book has an
    active or overdue transaction. *)
Definition delete_book (actor : Actor) (id : nat) (db : DB) : Response * DB :=
  if negb (bool_decide (actor_role actor = User.admin)) then
    (mkResponse 403 "Admin access required", db)
  else
    match books db !! id with
    | None => (mkResponse 404 "Book not found", db)
    | Some book =>
      if (0 <? length (Transaction.findBookActiveTransactions id (transactions db)))%nat
      then (mkResponse 400 "Cannot delete book with active transactions", db)
      else
        match Book.save (Book.set_isActive (Some false) book) with
        | Throw _ => (mkResponse 500 "Failed to delete book", db)
        | Ok book' =>
          (mkResponse 200 "Book deleted successfully",
           set_books (<[id := book']> (books db)) db)
        end
    end.

End BookRoutes.

(** ** routes/users.js *)

Module UserRoutes.

(** The [data] of [router.get('/stats')]. *)
Record Stats : Type := mkStats {
  totalBorrowed : nat;
  currentlyBorrowed : nat;
  overdueBooks : nat;
  totalFines : Z
}.

(** [router.get('/stats')] for [req.user._id]: three [countDocuments] and
    the [$sum] of [fineAmount] over the user's transactions (0 when there
    is none). *)
Definition get_stats (userId : nat) (db : DB) : Stats :=
  let of_user (t : Transaction.doc) := bool_decide (Transaction.user t = userId) in
  mkStats
    (length (Transaction.find of_user (transactions db)))
    (length (Transaction.find
               (λ t, of_user t && Transaction.in_active_overdue t) (transactions db)))
    (length (Transaction.find
               (λ t, of_user t && bool_decide (Transaction.status t = Transaction.overdue))
               (transactions db)))
    (foldr (λ kt acc, Transaction.fineAmount kt.2 + acc) 0
       (Transaction.find of_user (transactions db))).

End UserRoutes.

(** ** How one operation can change one transaction *)

(** [tx_change now before after]: what an operation at clock reading [now]
    may leave under an id that held [before]. *)
Inductive tx_change (now : Z) : option Transaction.doc → Transaction.doc → Prop :=
  | tx_same t : tx_change now (Some t) t
  | tx_created u b by_ :
      tx_change now None
        (Transaction.mk u b Transaction.borrow now (now + JS.loan_ms) None
           Transaction.active 0 0 by_)
  | tx_promoted t :
      Transaction.status t = Transaction.active →
      Transaction.dueDate t < now →
      tx_change now (Some t) (Transaction.pre_save_status now t)
  | tx_renewed t :
      Transaction.renewalCount t < 3 →
      Transaction.status t = Transaction.active →
      tx_change now (Some t)
        (Transaction.set_status Transaction.renewed
           (Transaction.set_dueDate (Transaction.dueDate t + JS.loan_ms)
              (Transaction.set_renewalCount (Transaction.renewalCount t + 1) t)))
  | tx_returned t :
      Transaction.status t ≠ Transaction.returned →
      tx_change now (Some t)
        (Transaction.set_status Transaction.returned
           (Transaction.set_returnDate (Some now) t)).

(** ** An update past the inventory bound, and runs of the engine *)

(** [PUT /:id] with body [{availableCopies: 50}] on the one-copy novel *)
Definition overstocked : Response * DB :=
  BookRoutes.put_book Scenario.librarian Scenario.novel
    (BookRoutes.mkBody None None (Some 50) None None) Scenario.db0.


(** * Properties *)

(** ** Book inventory *)

Lemma Book_save_inventory (b b' : Book.doc) :
  Book.save b = Ok b' → Book.inventory_ok b'.
Proof.
  unfold Book.save, Book.validate, Book.pre_save, Book.inventory_ok.
  destruct b as [ia [t|] [a|] bc lb]; simpl; try discriminate.
  destruct (1 <=? t) eqn:H1; simpl; try discriminate.
  destruct (t <=? 1000) eqn:H2; simpl; try discriminate.
  destruct (0 <=? a) eqn:H3; simpl; try discriminate.
  destruct (t <? a) eqn:H4; intros [= <-]; simpl.
  - exists t, t. repeat split; lia.
  - exists a, t. repeat split; lia.
Qed.

Lemma Book_borrowBook_inventory (now : Z) (b b' : Book.doc) :
  Book.borrowBook now b = Ok b' → Book.inventory_ok b'.
Proof.
  unfold Book.borrowBook.
  destruct (Book.canBorrow b); [apply Book_save_inventory | discriminate].
Qed.

Lemma Book_returnBook_inventory (b b' : Book.doc) :
  Book.returnBook b = Ok b' → Book.inventory_ok b'.
Proof.
  unfold Book.returnBook.
  destruct (JS.lt _ _); [apply Book_save_inventory | discriminate].
Qed.

(** The populated book of the return handler cannot be given back: both
    sides of [availableCopies < totalCopies] are [undefined]. *)
Lemma Book_returnBook_selected (b : Book.doc) :
  Book.returnBook (Book.select_title_author_isbn b)
  = Throw "All copies are already available".
Proof. reflexivity. Qed.

(** ** Saving and the two hooks *)

Lemma Transaction_save_existing (now : Z) (t t' : Transaction.doc) :
  Transaction.save false now t = Ok t' →
  Transaction.validate t = true ∧ t' = Transaction.pre_save_status now t.
Proof.
  unfold Transaction.save, Transaction.pre_save_dueDate. simpl.
  destruct (Transaction.validate t); [intros [= <-]; done | discriminate].
Qed.

Lemma calculateFine_not_overdue (now : Z) (t : Transaction.doc) :
  Transaction.status t ≠ Transaction.overdue →
  Transaction.calculateFine now t = t.
Proof.
  intros H. unfold Transaction.calculateFine.
  rewrite bool_decide_eq_false_2; done.
Qed.

Lemma pre_save_status_not_active (now : Z) (t : Transaction.doc) :
  Transaction.status t ≠ Transaction.active →
  Transaction.pre_save_status now t = t.
Proof.
  intros H. unfold Transaction.pre_save_status.
  rewrite (bool_decide_eq_false_2 _ H). done.
Qed.

Lemma pre_save_status_late (now : Z) (t : Transaction.doc) :
  Transaction.status t = Transaction.active →
  Transaction.dueDate t < now →
  Transaction.returnDate t = None →
  Transaction.pre_save_status now t = Transaction.set_status Transaction.overdue t.
Proof.
  intros Hs Hd Hr. unfold Transaction.pre_save_status.
  rewrite !bool_decide_eq_true_2 by done.
  apply Z.ltb_lt in Hd. rewrite Hd. done.
Qed.

Lemma tx_ok_validate (t : Transaction.doc) :
  tx_ok t → Transaction.validate t = true.
Proof.
  intros (Hf & Hr & _). unfold Transaction.validate.
  apply andb_true_intro; split; [apply Z.leb_le; lia | apply Z.leb_le; lia].
Qed.

Lemma pre_save_status_ok (now : Z) (t : Transaction.doc) :
  tx_ok t → tx_ok (Transaction.pre_save_status now t).
Proof.
  intros (Hf & Hr & Hd). unfold Transaction.pre_save_status.
  destruct (bool_decide (Transaction.status t = Transaction.active)) eqn:Hs; simpl; [|done].
  destruct (Transaction.dueDate t <? now); simpl; [|done].
  destruct (bool_decide (Transaction.returnDate t = None)) eqn:Hn; simpl; [|done].
  apply bool_decide_eq_true in Hn.
  repeat split; simpl; try done.
Qed.

Lemma pre_save_status_refs (now : Z) (t : Transaction.doc) :
  Transaction.user (Transaction.pre_save_status now t) = Transaction.user t
  ∧ Transaction.book (Transaction.pre_save_status now t) = Transaction.book t.
Proof.
  unfold Transaction.pre_save_status.
  destruct (_ && _ && _); done.
Qed.

(** ** The sweep loop *)

Lemma sweep_loop_catalogue io now found db sent :
  books (AutomationService.sweep_loop io now found db sent).1 = books db
  ∧ users (AutomationService.sweep_loop io now found db sent).1 = users db.
Proof.
  revert db sent. induction found as [|[id t] rest IH]; intros db sent; simpl; [done|].
  destruct (Transaction.save _ _ _) as [t'|]; [|done].
  destruct io.
  - destruct (users db !! Transaction.user t), (books db !! Transaction.book t); simpl; try done.
    destruct (IH (set_transactions (<[id:=t']> (transactions db)) db)
                (sent ++ [AutomationService.mkEvent (Transaction.user t) id
                            (Transaction.fineAmount t')])) as [-> ->]; done.
  - destruct (IH (set_transactions (<[id:=t']> (transactions db)) db) sent)
      as [-> ->]; done.
Qed.

(** Whatever the loop leaves under an id was there before or is the saved
    form of a document it was given. *)
Lemma sweep_loop_lookup io now found db sent k t' :
  transactions (AutomationService.sweep_loop io now found db sent).1 !! k = Some t' →
  transactions db !! k = Some t'
  ∨ ∃ t, (k, t) ∈ found
       ∧ Transaction.save false now (Transaction.calculateFine now t) = Ok t'.
Proof.
  revert db sent. induction found as [|[id t] rest IH]; intros db sent; simpl; [auto|].
  destruct (Transaction.save _ _ _) as [t1|] eqn:Hsave; [|auto].
  assert (∀ sent',
    transactions (AutomationService.sweep_loop io now rest
       (set_transactions (<[id:=t1]> (transactions db)) db) sent').1 !! k = Some t' →
    transactions db !! k = Some t'
    ∨ ∃ t0, (k, t0) ∈ (id, t) :: rest
         ∧ Transaction.save false now (Transaction.calculateFine now t0) = Ok t') as Hrec.
  { intros sent' H. apply IH in H as [H | (t0 & Hin & H)].
    - simpl in H. destruct (decide (id = k)) as [->|Hne].
      + rewrite lookup_insert_eq in H. injection H as ->.
        right. exists t. split; [left | done].
      + rewrite lookup_insert_ne in H by done. auto.
    - right. exists t0. split; [right; done | done]. }
  assert (transactions (set_transactions (<[id:=t1]> (transactions db)) db) !! k = Some t' →
    transactions db !! k = Some t'
    ∨ ∃ t0, (k, t0) ∈ (id, t) :: rest
         ∧ Transaction.save false now (Transaction.calculateFine now t0) = Ok t') as Hstop.
  { simpl. intros H. destruct (decide (id = k)) as [->|Hne].
    - rewrite lookup_insert_eq in H. injection H as ->.
      right. exists t. split; [left | done].
    - rewrite lookup_insert_ne in H by done. auto. }
  destruct io; [|apply Hrec].
  destruct (users db !! Transaction.user t), (books db !! Transaction.book t);
    first [apply Hrec | apply Hstop].
Qed.

Lemma find_spec (q : Transaction.doc → bool) (c : gmap nat Transaction.doc) id t :
  (id, t) ∈ Transaction.find q c ↔ c !! id = Some t ∧ q t = true.
Proof.
  unfold Transaction.find.
  rewrite elem_of_map_to_list, map_lookup_filter_Some. done.
Qed.

Lemma overdue_query_spec now t :
  Transaction.overdue_query now t = true ↔
  Transaction.status t = Transaction.active ∧ Transaction.dueDate t < now.
Proof.
  unfold Transaction.overdue_query.
  rewrite andb_true_iff, bool_decide_eq_true, Z.ltb_lt. done.
Qed.

(** ** Every operation keeps the stored data sound *)

Lemma db_ok_set_books (bs : gmap nat Book.doc) (db : DB) :
  (∀ k, is_Some (books db !! k) → is_Some (bs !! k)) →
  db_ok db → db_ok (set_books bs db).
Proof.
  intros Hbs Hok id t Hl. destruct (Hok id t Hl) as (H1 & H2 & H3).
  repeat split; try apply H1; [done | apply Hbs, H3].
Qed.

Lemma db_ok_insert_book (k : nat) (b : Book.doc) (db : DB) :
  db_ok db → db_ok (set_books (<[k:=b]> (books db)) db).
Proof.
  apply db_ok_set_books. intros j Hj.
  apply lookup_insert_is_Some. destruct (decide (k = j)); auto.
Qed.

Lemma db_ok_insert_transaction (k : nat) (t : Transaction.doc) (db : DB) :
  tx_ok t →
  is_Some (users db !! Transaction.user t) →
  is_Some (books db !! Transaction.book t) →
  db_ok db → db_ok (set_transactions (<[k:=t]> (transactions db)) db).
Proof.
  intros Ht Hu Hb Hok id t0. simpl. intros Hl.
  destruct (decide (k = id)) as [->|Hne].
  - rewrite lookup_insert_eq in Hl. injection Hl as <-. done.
  - rewrite lookup_insert_ne in Hl by done. apply (Hok id t0 Hl).
Qed.

Lemma sweep_db_ok io now db :
  db_ok db → db_ok (AutomationService.checkOverdueBooks io now db).1.
Proof.
  intros Hok id t' Hl. unfold AutomationService.checkOverdueBooks in *.
  destruct (sweep_loop_catalogue io now
              (Transaction.findOverdue now (transactions db)) db []) as [Hb Hu].
  rewrite Hb, Hu.
  apply sweep_loop_lookup in Hl as [Hl | (t & Hin & Hsave)]; [by apply (Hok id)|].
  apply find_spec in Hin as [Hin Hq].
  apply overdue_query_spec in Hq as [Hs _].
  rewrite calculateFine_not_overdue in Hsave by (rewrite Hs; done).
  apply Transaction_save_existing in Hsave as [_ ->].
  destruct (Hok id t Hin) as (H1 & H2 & H3).
  destruct (pre_save_status_refs now t) as [-> ->].
  split; [by apply pre_save_status_ok | done].
Qed.

(** The document a successful issue stores. *)
Lemma save_new_borrow now u b due by_ :
  Transaction.save true now (Transaction.new now u b Transaction.borrow due by_)
  = Ok (Transaction.mk u b Transaction.borrow now (now + JS.loan_ms) None
          Transaction.active 0 0 by_).
Proof.
  unfold Transaction.save, Transaction.new, Transaction.pre_save_dueDate,
    Transaction.pre_save_status. simpl.
  replace (now + JS.loan_ms <? now) with false; [done|].
  symmetry. apply Z.ltb_ge. unfold JS.loan_ms. lia.
Qed.

Lemma issue_db_ok now tid actor bookId userId dueDate db :
  db_ok db → db_ok (Routes.post_issue now tid actor bookId userId dueDate db).2.
Proof.
  intros Hok. unfold Routes.post_issue.
  destruct (negb _); [done|].
  destruct (books db !! bookId) as [bk|] eqn:Hbk; [|done].
  destruct (users db !! userId) as [u|] eqn:Hu; [|done].
  destruct (negb (Book.canBorrow bk)); [done|].
  destruct (0 <? _)%nat; [done|].
  destruct (5 <=? _)%nat; [done|].
  destruct (Book.borrowBook now bk) as [bk'|]; [|done].
  rewrite save_new_borrow.
  destruct (transactions db !! tid); simpl; [by apply db_ok_insert_book|].
  apply (db_ok_insert_transaction tid _ (set_books (<[bookId:=bk']> (books db)) db)).
  - repeat split; simpl; try done; lia.
  - simpl. rewrite Hu. done.
  - simpl. rewrite lookup_insert_eq. done.
  - by apply db_ok_insert_book.
Qed.

(** The document a successful return stores. *)
Lemma returnBook_Ok now t t' :
  Transaction.returnBook now t = Ok t' →
  Transaction.status t ≠ Transaction.returned
  ∧ Transaction.validate t = true
  ∧ t' = Transaction.set_status Transaction.returned
           (Transaction.set_returnDate (Some now) t).
Proof.
  unfold Transaction.returnBook.
  destruct (bool_decide (Transaction.status t = Transaction.returned)) eqn:Hs;
    [discriminate|].
  apply bool_decide_eq_false in Hs.
  rewrite calculateFine_not_overdue by done.
  intros H. apply Transaction_save_existing in H as [Hv ->].
  rewrite pre_save_status_not_active by done. done.
Qed.

(** The document a successful renewal stores. *)
Lemma renewBook_Ok now t t' :
  Transaction.renewBook now t = Ok t' →
  Transaction.renewalCount t < 3
  ∧ Transaction.status t = Transaction.active
  ∧ t' = Transaction.set_status Transaction.renewed
           (Transaction.set_dueDate (Transaction.dueDate t + JS.loan_ms)
              (Transaction.set_renewalCount (Transaction.renewalCount t + 1) t)).
Proof.
  unfold Transaction.renewBook.
  destruct (3 <=? Transaction.renewalCount t) eqn:Hr; [discriminate|].
  apply Z.leb_gt in Hr.
  destruct (bool_decide (Transaction.status t = Transaction.active)) eqn:Hs;
    simpl; [|discriminate].
  apply bool_decide_eq_true in Hs.
  intros H. apply Transaction_save_existing in H as [Hv ->].
  rewrite pre_save_status_not_active by done. done.
Qed.

Lemma return_db_ok io now actor transactionId db :
  db_ok db → db_ok (Routes.post_return io now actor transactionId db).2.
Proof.
  intros Hok. unfold Routes.post_return.
  destruct (negb _); [done|].
  destruct (transactions db !! transactionId) as [t|] eqn:Ht; [|done].
  destruct (bool_decide _); [done|].
  destruct (Transaction.returnBook now t) as [t'|] eqn:Hret; [|done].
  apply returnBook_Ok in Hret as (Hs & Hv & ->).
  destruct (Hok _ _ Ht) as ((Hf & Hr & Hd) & Hu & Hb).
  assert (db_ok (set_transactions
     (<[transactionId:=Transaction.set_status Transaction.returned
          (Transaction.set_returnDate (Some now) t)]> (transactions db)) db)) as Hok1.
  { apply db_ok_insert_transaction; done. }
  destruct (books db !! Transaction.book t) as [bk|]; simpl; done.
Qed.

Lemma renew_db_ok io now actor transactionId db :
  db_ok db → db_ok (Routes.post_renew io now actor transactionId db).2.
Proof.
  intros Hok. unfold Routes.post_renew.
  destruct (transactions db !! transactionId) as [t|] eqn:Ht; [|done].
  destruct (users db !! Transaction.user t); [|done].
  destruct (negb _ && negb _); [done|].
  destruct (Transaction.renewBook now t) as [t'|] eqn:Hren; [|done].
  apply renewBook_Ok in Hren as (Hr & Hs & ->).
  destruct (Hok _ _ Ht) as ((Hf & Hr' & Hd) & Hu & Hb).
  assert (db_ok (set_transactions
     (<[transactionId:=Transaction.set_status Transaction.renewed
          (Transaction.set_dueDate (Transaction.dueDate t + JS.loan_ms)
             (Transaction.set_renewalCount (Transaction.renewalCount t + 1) t))]>
        (transactions db)) db)) as Hok1; [|by destruct (io && _)].
  apply db_ok_insert_transaction; try done.
  repeat split; simpl; try done; try lia.
  intros _. apply Hd. rewrite Hs. done.
Qed.

Lemma step_db_ok now op db : db_ok db → db_ok (step now op db).
Proof.
  destruct op; simpl.
  - apply issue_db_ok.
  - apply return_db_ok.
  - apply renew_db_ok.
  - apply sweep_db_ok.
Qed.

Lemma reachable_db_ok db : reachable db → db_ok db.
Proof.
  induction 1 as [bs us | db now op _ IH | db bs us _ IH Hb Hu].
  - intros id t. simpl. rewrite lookup_empty. done.
  - by apply step_db_ok.
  - intros id t Hl. simpl in *. destruct (IH id t Hl) as (H1 & H2 & H3).
    split; [done|]. split.
    + apply elem_of_dom, Hu, elem_of_dom, H2.
    + apply elem_of_dom, Hb, elem_of_dom, H3.
Qed.

(** ** A sweep over sound data promotes every document it was given *)

Lemma sweep_loop_complete io now found db sent :
  NoDup found.*1 →
  (∀ id t, (id, t) ∈ found →
     Transaction.save false now (Transaction.calculateFine now t)
     = Ok (Transaction.set_status Transaction.overdue t)
     ∧ is_Some (users db !! Transaction.user t)
     ∧ is_Some (books db !! Transaction.book t)) →
  ∀ k, transactions (AutomationService.sweep_loop io now found db sent).1 !! k
       = match (list_to_map found : gmap nat Transaction.doc) !! k with
         | Some t => Some (Transaction.set_status Transaction.overdue t)
         | None => transactions db !! k
         end.
Proof.
  revert db sent. induction found as [|[id t] rest IH]; intros db sent Hnd Hsafe k.
  { simpl. rewrite lookup_empty. done. }
  simpl in Hnd. apply NoDup_cons in Hnd as [Hid Hnd].
  destruct (Hsafe id t) as (Hsave & [u Hu] & [b Hb]); [left|].
  assert (∀ sent',
    transactions (AutomationService.sweep_loop io now rest
      (set_transactions
         (<[id:=Transaction.set_status Transaction.overdue t]> (transactions db)) db)
      sent').1 !! k
    = match (list_to_map ((id, t) :: rest) : gmap nat Transaction.doc) !! k with
      | Some t0 => Some (Transaction.set_status Transaction.overdue t0)
      | None => transactions db !! k
      end) as Hrec.
  { intros sent'. rewrite IH; [|done|].
    - simpl. destruct (decide (id = k)) as [->|Hne].
      + rewrite lookup_insert_eq.
        rewrite (not_elem_of_list_to_map_1 _ _ Hid).
        rewrite lookup_insert_eq. done.
      + rewrite !lookup_insert_ne by done. done.
    - intros id0 t0 Hin. simpl. apply (Hsafe id0 t0). right. done. }
  simpl. rewrite Hsave, Hu, Hb. destruct io; apply Hrec.
Qed.

Lemma late_active_saved now db id t :
  db_ok db →
  (id, t) ∈ Transaction.findOverdue now (transactions db) →
  Transaction.save false now (Transaction.calculateFine now t)
  = Ok (Transaction.set_status Transaction.overdue t)
  ∧ is_Some (users db !! Transaction.user t)
  ∧ is_Some (books db !! Transaction.book t).
Proof.
  intros Hok Hin. apply find_spec in Hin as [Hl Hq].
  apply overdue_query_spec in Hq as [Hs Hd].
  destruct (Hok id t Hl) as (Ht & Hu & Hb).
  split; [|done].
  rewrite calculateFine_not_overdue by (rewrite Hs; done).
  unfold Transaction.save. rewrite (tx_ok_validate t Ht). simpl.
  unfold Transaction.pre_save_dueDate. simpl.
  rewrite pre_save_status_late; try done.
  destruct Ht as (_ & _ & Hr). apply Hr. rewrite Hs. done.
Qed.

(** The sweep over sound data, document by document. *)
Lemma sweep_lookup io now db k :
  db_ok db →
  transactions (AutomationService.checkOverdueBooks io now db).1 !! k
  = (λ t, if Transaction.overdue_query now t
          then Transaction.set_status Transaction.overdue t else t)
    <$> transactions db !! k.
Proof.
  intros Hok. unfold AutomationService.checkOverdueBooks.
  rewrite sweep_loop_complete.
  - unfold Transaction.findOverdue, Transaction.find.
    rewrite list_to_map_to_list.
    destruct (filter _ (transactions db) !! k) as [t|] eqn:Hf.
    + apply map_lookup_filter_Some in Hf as [Hl Hq]. simpl in Hq.
      rewrite Hl. simpl. rewrite Hq. done.
    + destruct (transactions db !! k) as [t|] eqn:Hl; [|done]. simpl.
      destruct (Transaction.overdue_query now t) eqn:Hq; [|done].
      assert (filter (λ kt : nat * Transaction.doc,
                Transaction.overdue_query now kt.2 = true)
                (transactions db) !! k = Some t) as Hf'.
      { apply map_lookup_filter_Some. done. }
      congruence.
  - apply NoDup_fst_map_to_list.
  - intros id t Hin. by apply (late_active_saved now db id t).
Qed.

(** ** Inventory bound *)

Lemma step_books_ok now op db : books_ok db → books_ok (step now op db).
Proof.
  intros Hok. destruct op as [tid actor bookId userId due | io actor tr | io' actor tr | io];
    simpl.
  - unfold Routes.post_issue.
    destruct (negb _); [done|].
    destruct (books db !! bookId) as [bk|] eqn:Hbk; [|done].
    destruct (users db !! userId) as [u|]; [|done].
    destruct (negb (Book.canBorrow bk)); [done|].
    destruct (0 <? _)%nat; [done|].
    destruct (5 <=? _)%nat; [done|].
    destruct (Book.borrowBook now bk) as [bk'|] eqn:Hborrow; [|done].
    assert (books_ok (set_books (<[bookId:=bk']> (books db)) db)) as Hok1.
    { intros id b. simpl. destruct (decide (bookId = id)) as [->|Hne].
      - rewrite lookup_insert_eq. intros [= <-].
        by apply (Book_borrowBook_inventory now bk).
      - rewrite lookup_insert_ne by done. apply Hok. }
    destruct (Transaction.save _ _ _); [|done].
    destruct (transactions db !! tid); done.
  - unfold Routes.post_return.
    destruct (negb _); [done|].
    destruct (transactions db !! tr) as [t|]; [|done].
    destruct (bool_decide _); [done|].
    destruct (Transaction.returnBook now t) as [t'|]; [|done].
    destruct (books db !! Transaction.book t) as [bk|]; simpl; done.
  - unfold Routes.post_renew.
    destruct (transactions db !! tr) as [t|]; [|done].
    destruct (users db !! Transaction.user t); [|done].
    destruct (negb _ && negb _); [done|].
    destruct (Transaction.renewBook now t); [destruct (_ && _)|]; done.
  - intros id b. unfold AutomationService.checkOverdueBooks.
    destruct (sweep_loop_catalogue io now
                (Transaction.findOverdue now (transactions db)) db []) as [-> _].
    apply Hok.
Qed.

(** The write paths that go through [save]: whatever document [save],
    [borrowBook] or [returnBook] writes has
    [0 <= availableCopies <= totalCopies], and every operation of the engine
    (issue, return, renew, sweep) leaves every stored book within that bound
    when it found them so. *)
Theorem inventory_invariant :
  (∀ now b b',
     Book.save b = Ok b' ∨ Book.borrowBook now b = Ok b' ∨ Book.returnBook b = Ok b' →
     Book.inventory_ok b')
  ∧ (∀ now op db, books_ok db → books_ok (step now op db)).
Proof.
  split.
  - intros now b b' [H | [H | H]].
    + by apply (Book_save_inventory b).
    + by apply (Book_borrowBook_inventory now b).
    + by apply (Book_returnBook_inventory b).
  - apply step_books_ok.
Qed.

Lemma books_ok_db0 : books_ok Scenario.db0.
Proof.
  intros id b. unfold Scenario.db0. simpl.
  intros [_ <-]%lookup_singleton_Some.
  exists 1, 1. repeat split; lia.
Qed.

Lemma inventory_invariant_witness :
  Book.inventory_ok (Book.mk (Some true) (Some 1) (Some 0) (Some 1) (Some Scenario.t0))
  ∧ books_ok (step Scenario.t0
                (Issue 1%nat Scenario.librarian Scenario.novel Scenario.reader None)
                Scenario.db0).
Proof.
  split.
  - apply (proj1 inventory_invariant Scenario.t0
             (Book.mk (Some true) (Some 1) (Some 1) (Some 0) None)).
    right; left. reflexivity.
  - apply (proj2 inventory_invariant). exact books_ok_db0.
Defined.

(** ** Transaction invariants over the reachable states *)

(** C8.  Transaction state invariant: in every reachable state, a stored
    transaction has no [returnDate] exactly when its status is one of active,
    overdue, renewed; so [returnDate] is set exactly when it is returned. *)
Theorem returnDate_iff_open (db : DB) (id : nat) (t : Transaction.doc) :
  reachable db →
  transactions db !! id = Some t →
  (Transaction.returnDate t = None ↔
     Transaction.status t = Transaction.active
     ∨ Transaction.status t = Transaction.overdue
     ∨ Transaction.status t = Transaction.renewed)
  ∧ (is_Some (Transaction.returnDate t) ↔ Transaction.status t = Transaction.returned).
Proof.
  intros Hreach Hl.
  destruct (reachable_db_ok db Hreach id t Hl) as ((_ & _ & Hr) & _).
  split.
  - rewrite Hr. destruct (Transaction.status t); split; intros H; try done; auto.
    destruct H as [H | [H | H]]; discriminate.
  - destruct (Transaction.returnDate t) as [d|] eqn:Hd.
    + split; [|eauto]. intros _.
      destruct (decide (Transaction.status t = Transaction.returned)) as [|Hn]; [done|].
      apply Hr in Hn. discriminate.
    + split; [intros [? ?]; discriminate|].
      intros Hs. exfalso. destruct Hr as [Hr _]. by apply Hr.
Qed.

(** C10.  In every reachable state every transaction has [fineAmount = 0]:
    [calculateFine] only writes when the status is overdue, and both callers
    reach it with another status. *)
Theorem fineAmount_stays_zero (db : DB) (id : nat) (t : Transaction.doc) :
  reachable db →
  transactions db !! id = Some t →
  Transaction.fineAmount t = 0.
Proof.
  intros Hreach Hl.
  destruct (reachable_db_ok db Hreach id t Hl) as ((Hf & _) & _). exact Hf.
Qed.

Lemma reachable_after_sweep : reachable Trace.after_sweep.
Proof. do 2 apply reachable_step. apply reachable_init. Qed.

Lemma reachable_after_return : reachable Trace.after_return.
Proof. apply reachable_step, reachable_after_sweep. Qed.

Lemma returnDate_iff_open_witness :
  reachable Trace.after_return
  ∧ transactions Trace.after_return !! 1%nat = Some Trace.returned_loan
  ∧ (Transaction.returnDate Trace.returned_loan = None ↔
       Transaction.status Trace.returned_loan = Transaction.active
       ∨ Transaction.status Trace.returned_loan = Transaction.overdue
       ∨ Transaction.status Trace.returned_loan = Transaction.renewed)
  ∧ (is_Some (Transaction.returnDate Trace.returned_loan) ↔
       Transaction.status Trace.returned_loan = Transaction.returned).
Proof.
  split; [exact reachable_after_return|].
  split; [vm_compute; reflexivity|].
  apply (returnDate_iff_open Trace.after_return 1%nat).
  - exact reachable_after_return.
  - vm_compute; reflexivity.
Defined.

Lemma fineAmount_stays_zero_witness :
  reachable Trace.after_sweep
  ∧ transactions Trace.after_sweep !! 1%nat = Some Trace.overdue_loan
  ∧ Transaction.fineAmount Trace.overdue_loan = 0.
Proof.
  split; [exact reachable_after_sweep|].
  split; [vm_compute; reflexivity|].
  apply (fineAmount_stays_zero Trace.after_sweep 1%nat).
  - exact reachable_after_sweep.
  - vm_compute; reflexivity.
Defined.

(** ** The sweep *)

Lemma findOverdue_after_sweep io now db :
  db_ok db →
  Transaction.findOverdue now
    (transactions (AutomationService.checkOverdueBooks io now db).1) = [].
Proof.
  intros Hok. unfold Transaction.findOverdue, Transaction.find.
  match goal with |- map_to_list ?m = _ => assert (m = ∅) as -> end;
    [|apply map_to_list_empty].
  apply map_empty. intros i.
  match goal with |- ?m !! i = None => destruct (m !! i) as [t'|] eqn:Hf end; [|done].
  exfalso. apply map_lookup_filter_Some in Hf as [Hl Hq]. simpl in Hq.
  rewrite (sweep_lookup io now db i Hok) in Hl.
  destruct (transactions db !! i) as [t|]; [|discriminate].
  simpl in Hl. injection Hl as <-.
  destruct (Transaction.overdue_query now t) eqn:Hq0; [|congruence].
  apply overdue_query_spec in Hq as [Hs _]. discriminate.
Qed.

(** C9.  Idempotence of the sweep: in a reachable state, a second run at the
    same clock reading leaves the database as the first run left it and
    emits nothing. *)
Theorem sweep_idempotent (io : bool) (now : Z) (db : DB) :
  reachable db →
  AutomationService.checkOverdueBooks io now
    (AutomationService.checkOverdueBooks io now db).1
  = ((AutomationService.checkOverdueBooks io now db).1, []).
Proof.
  intros Hreach. apply reachable_db_ok in Hreach.
  unfold AutomationService.checkOverdueBooks at 1.
  rewrite findOverdue_after_sweep by done. reflexivity.
Qed.

Lemma sweep_idempotent_witness :
  reachable Trace.after_issue
  ∧ AutomationService.checkOverdueBooks true (Scenario.t0 + 15 * JS.day_ms)
      (AutomationService.checkOverdueBooks true (Scenario.t0 + 15 * JS.day_ms)
         Trace.after_issue).1
    = ((AutomationService.checkOverdueBooks true (Scenario.t0 + 15 * JS.day_ms)
          Trace.after_issue).1, []).
Proof.
  assert (reachable Trace.after_issue) as H
    by (apply reachable_step, reachable_init).
  split; [exact H|].
  apply (sweep_idempotent true (Scenario.t0 + 15 * JS.day_ms) Trace.after_issue H).
Defined.

Lemma reachable_renewed_once : reachable Run.renewed_once.2.
Proof.
  apply (reachable_step _ (Scenario.t0 + JS.day_ms)
           (Renew true (mkActor Scenario.reader User.member) 1%nat)).
  apply (reachable_step _ Scenario.t0
           (Issue 1%nat Scenario.librarian Scenario.novel Scenario.reader None)).
  apply reachable_init.
Qed.

(** C3, counterexample.  The loan renewed on day 1 is due on day 28; on
    day 30 it is renewed, late and not returned, and the sweep leaves it
    renewed: the claim for "active or renewed" is false. *)
Lemma renewed_loan_not_promoted :
  ¬ (∀ io now db id t,
       reachable db →
       transactions db !! id = Some t →
       Transaction.status t = Transaction.active
       ∨ Transaction.status t = Transaction.renewed →
       Transaction.dueDate t < now →
       Transaction.returnDate t = None →
       ∃ t', transactions (AutomationService.checkOverdueBooks io now db).1 !! id
             = Some t'
             ∧ Transaction.status t' = Transaction.overdue).
Proof.
  intros H.
  destruct (H true (Scenario.t0 + 30 * JS.day_ms) Run.renewed_once.2 1%nat renewed_loan)
    as (t' & Hl & Hs).
  - exact reachable_renewed_once.
  - vm_compute; reflexivity.
  - right; reflexivity.
  - vm_compute; reflexivity.
  - reflexivity.
  - vm_compute in Hl. injection Hl as <-. discriminate.
Qed.

(** C3, amended.  Overdue promotion covers active transactions only.  In a
    reachable state, for a transaction that is late and has no return date:
    when its status is active, a run of the sweep turns it overdue, and so
    does any save of the document (the pre-save hook); when its status is
    renewed, the sweep and a save leave it as it is.  After a sweep no
    active transaction with a due date in the past remains. *)
Theorem overdue_promotion (io : bool) (now : Z) (db : DB) (id : nat)
    (t : Transaction.doc) :
  reachable db →
  transactions db !! id = Some t →
  Transaction.dueDate t < now →
  Transaction.returnDate t = None →
  (Transaction.status t = Transaction.active →
     transactions (AutomationService.checkOverdueBooks io now db).1 !! id
     = Some (Transaction.set_status Transaction.overdue t)
     ∧ Transaction.save false now t
       = Ok (Transaction.set_status Transaction.overdue t))
  ∧ (Transaction.status t = Transaction.renewed →
     transactions (AutomationService.checkOverdueBooks io now db).1 !! id = Some t
     ∧ Transaction.save false now t = Ok t)
  ∧ (∀ id' t',
       transactions (AutomationService.checkOverdueBooks io now db).1 !! id' = Some t' →
       ¬ (Transaction.status t' = Transaction.active ∧ Transaction.dueDate t' < now)).
Proof.
  intros Hreach Hl Hd Hr. apply reachable_db_ok in Hreach as Hok.
  destruct (Hok id t Hl) as (Ht & _).
  assert (Transaction.save false now t = Ok (Transaction.pre_save_status now t)) as Hsave.
  { unfold Transaction.save. rewrite (tx_ok_validate t Ht). done. }
  split; [|split].
  - intros Hs. split.
    + rewrite sweep_lookup, Hl by done. simpl.
      rewrite (proj2 (overdue_query_spec now t)) by done. done.
    + rewrite Hsave, pre_save_status_late by done. done.
  - intros Hs. split.
    + rewrite sweep_lookup, Hl by done. simpl.
      destruct (Transaction.overdue_query now t) eqn:Hq; [|done].
      apply overdue_query_spec in Hq as [Hq _]. congruence.
    + rewrite Hsave, pre_save_status_not_active by (rewrite Hs; done). done.
  - intros id' t' Hl' Hq. apply overdue_query_spec in Hq.
    assert ((id', t') ∈ Transaction.findOverdue now
              (transactions (AutomationService.checkOverdueBooks io now db).1)) as Hin.
    { apply find_spec. done. }
    rewrite findOverdue_after_sweep in Hin by done.
    by apply elem_of_nil in Hin.
Qed.

Lemma overdue_promotion_witness :
  reachable Trace.after_issue
  ∧ transactions Trace.after_issue !! 1%nat
    = Some (Transaction.set_status Transaction.active Trace.overdue_loan)
  ∧ transactions (AutomationService.checkOverdueBooks true
                    (Scenario.t0 + 15 * JS.day_ms) Trace.after_issue).1 !! 1%nat
    = Some Trace.overdue_loan.
Proof.
  assert (reachable Trace.after_issue) as H
    by (apply reachable_step, reachable_init).
  split; [exact H|]. split; [vm_compute; reflexivity|].
  refine (proj1 (proj1 (overdue_promotion true (Scenario.t0 + 15 * JS.day_ms)
            Trace.after_issue 1%nat
            (Transaction.set_status Transaction.active Trace.overdue_loan)
            H _ _ _) _)).
  - vm_compute; reflexivity.
  - vm_compute; reflexivity.
  - reflexivity.
  - reflexivity.
Defined.

(** ** The issue handler *)

Lemma canBorrow_spec (b : Book.doc) :
  Book.canBorrow b = true ↔
  Book.isActive b = Some true ∧ ∃ a, Book.availableCopies b = Some a ∧ 0 < a.
Proof.
  unfold Book.canBorrow, JS.truthy, JS.gt, JS.lt.
  destruct (Book.isActive b) as [[|]|], (Book.availableCopies b) as [a|]; simpl;
    split; try (intros H; discriminate H); try (intros [H _]; discriminate H);
    try (intros (_ & a' & H & _); discriminate H).
  - intros H. apply Z.ltb_lt in H. eauto.
  - intros (_ & a' & [= <-] & H). by apply Z.ltb_lt.
Qed.

Lemma find_nonempty (q : Transaction.doc → bool) (c : gmap nat Transaction.doc) :
  (0 <? length (Transaction.find q c))%nat = true ↔
  ∃ id t, c !! id = Some t ∧ q t = true.
Proof.
  destruct (Transaction.find q c) as [|[id t] l] eqn:E; simpl; split.
  - discriminate.
  - intros (id & t & H). apply find_spec in H. rewrite E in H.
    by apply elem_of_nil in H.
  - intros _. exists id, t. apply find_spec. rewrite E. left.
  - done.
Qed.

Lemma overdue_of_spec userId t :
  Routes.overdue_of userId t = true ↔
  Transaction.user t = userId ∧ Transaction.status t = Transaction.overdue.
Proof.
  unfold Routes.overdue_of. rewrite andb_true_iff, !bool_decide_eq_true. done.
Qed.

(** C5, counterexample.  The reader's account is deactivated, the second
    precondition of the specification fails, and the handler answers 201 and
    stores the loan: it does not answer with the failure of the first
    precondition that fails. *)
Lemma deactivated_reader_is_served :
  ¬ (∀ now tid actor bookId userId dueDate db f,
       actor_role actor = User.admin →
       Spec.issue_first_failure bookId userId db = Some f →
       Spec.failure_of (Routes.post_issue now tid actor bookId userId dueDate db).1
       = Some f).
Proof.
  intros H.
  specialize (H Scenario.t0 1%nat Scenario.librarian Scenario.novel Scenario.reader
                None Run.db_deactivated Spec.NotFound eq_refl).
  vm_compute in H. specialize (H eq_refl). discriminate H.
Qed.

(** C5, amended.  For an admin actor the handler checks, in this order and
    with the first failure deciding: the book exists (404); the user exists
    (404); the book is active and has [availableCopies > 0], one check
    (400); the user has no overdue transaction (400); the user has fewer
    than 5 transactions that are active or overdue (400).  A failed check
    leaves the database as it was.  When all five pass, the stored book
    passes its validators and the new id is free, the answer is 201; whether
    the user's account is active is not looked at. *)
Theorem issue_check_order now tid actor bookId userId dueDate db :
  actor_role actor = User.admin →
  let r := Routes.post_issue now tid actor bookId userId dueDate db in
  (books db !! bookId = None →
     r = (mkResponse 404 "Book not found", db))
  ∧ (is_Some (books db !! bookId) → users db !! userId = None →
     r = (mkResponse 404 "User not found", db))
  ∧ (∀ b, books db !! bookId = Some b → is_Some (users db !! userId) →
     ¬ (Book.isActive b = Some true
        ∧ ∃ a, Book.availableCopies b = Some a ∧ 0 < a) →
     r = (mkResponse 400 "Book is not available for borrowing", db))
  ∧ (∀ b, books db !! bookId = Some b → is_Some (users db !! userId) →
     Book.canBorrow b = true →
     (∃ id t, transactions db !! id = Some t
              ∧ Transaction.user t = userId
              ∧ Transaction.status t = Transaction.overdue) →
     r = (mkResponse 400
            "User has overdue books. Please return them before borrowing new books.",
          db))
  ∧ (∀ b, books db !! bookId = Some b → is_Some (users db !! userId) →
     Book.canBorrow b = true →
     (¬ ∃ id t, transactions db !! id = Some t
                ∧ Transaction.user t = userId
                ∧ Transaction.status t = Transaction.overdue) →
     (5 <= length (Transaction.find (Routes.open_of userId) (transactions db)))%nat →
     r = (mkResponse 400 "User has reached maximum borrowing limit (5 books)", db))
  ∧ (∀ b, books db !! bookId = Some b → is_Some (users db !! userId) →
     Book.canBorrow b = true →
     (¬ ∃ id t, transactions db !! id = Some t
                ∧ Transaction.user t = userId
                ∧ Transaction.status t = Transaction.overdue) →
     (length (Transaction.find (Routes.open_of userId) (transactions db)) < 5)%nat →
     Book.validate b = true →
     transactions db !! tid = None →
     r.1 = mkResponse 201 "Book issued successfully").
Proof.
  intros Hadmin r. subst r. unfold Routes.post_issue.
  rewrite (bool_decide_eq_true_2 _ Hadmin). cbn [negb].
  split; [intros ->; done|].
  split; [intros [b ->] ->; done|].
  assert ((0 <? length (Transaction.find (Routes.overdue_of userId) (transactions db)))%nat
          = true ↔
          ∃ id t, transactions db !! id = Some t
                  ∧ Transaction.user t = userId
                  ∧ Transaction.status t = Transaction.overdue) as Hover.
  { rewrite find_nonempty. split; intros (id & t & Hl & H); exists id, t;
      (split; [done|]); by apply overdue_of_spec. }
  split; [|split; [|split; [|]]].
  - intros b -> [u ->] Hnot.
    destruct (Book.canBorrow b) eqn:Hc; [|done].
    apply canBorrow_spec in Hc. done.
  - intros b -> [u ->] -> Hex. cbn [negb].
    rewrite (proj2 Hover Hex). done.
  - intros b -> [u ->] -> Hnex Hcap. cbn [negb].
    destruct (0 <? _)%nat eqn:H0; [exfalso; by apply Hnex, Hover|].
    rewrite (proj2 (Nat.leb_le _ _) Hcap). done.
  - intros b Hb [u ->] Hc Hnex Hcap Hval Hfresh. rewrite Hb, Hc. cbn [negb].
    destruct (0 <? _)%nat eqn:H0; [exfalso; by apply Hnex, Hover|].
    rewrite (proj2 (Nat.leb_gt _ _) Hcap).
    rewrite save_new_borrow, Hfresh.
    destruct (Book.borrowBook now b) as [b'|msg] eqn:Hborrow; [done|].
    exfalso. unfold Book.borrowBook in Hborrow. rewrite Hc in Hborrow.
    apply canBorrow_spec in Hc as (_ & a & Ha & Hpos).
    unfold Book.save, Book.validate in Hborrow, Hval. simpl in Hborrow.
    rewrite Ha in Hborrow, Hval. simpl in Hborrow.
    destruct (Book.totalCopies b) as [t|]; [|discriminate].
    apply andb_true_iff in Hval as [Hval _]. rewrite Hval in Hborrow.
    replace (0 <=? a + -1) with true in Hborrow by (symmetry; apply Z.leb_le; lia).
    discriminate.
Qed.

Lemma issue_check_order_witness :
  actor_role Scenario.librarian = User.admin
  ∧ Run.issued_to_deactivated.1 = mkResponse 201 "Book issued successfully".
Proof.
  split; [reflexivity|].
  destruct (issue_check_order Scenario.t0 1%nat Scenario.librarian Scenario.novel
              Scenario.reader None Run.db_deactivated eq_refl)
    as (_ & _ & _ & _ & _ & H).
  apply (H (Book.mk (Some true) (Some 1) (Some 1) (Some 0) None)).
  - vm_compute; reflexivity.
  - vm_compute; eauto.
  - reflexivity.
  - intros (id & t & Hl & _). vm_compute in Hl. discriminate Hl.
  - vm_compute; lia.
  - reflexivity.
  - vm_compute; reflexivity.
Defined.

(** Every transaction that [post_issue] stores is due 14 days after its
    borrow date, whatever due date the request carried. *)
Lemma issue_dueDate now tid actor bookId userId dueDate db :
  code (Routes.post_issue now tid actor bookId userId dueDate db).1 = 201 →
  transactions (Routes.post_issue now tid actor bookId userId dueDate db).2 !! tid
  = Some (Transaction.mk userId bookId Transaction.borrow now (now + JS.loan_ms)
            None Transaction.active 0 0 (actor_id actor)).
Proof.
  unfold Routes.post_issue.
  destruct (negb _); [discriminate|].
  destruct (books db !! bookId) as [bk|]; [|discriminate].
  destruct (users db !! userId) as [u|]; [|discriminate].
  destruct (negb (Book.canBorrow bk)); [discriminate|].
  destruct (0 <? _)%nat; [discriminate|].
  destruct (5 <=? _)%nat; [discriminate|].
  destruct (Book.borrowBook now bk) as [bk'|]; [|discriminate].
  rewrite save_new_borrow.
  destruct (transactions db !! tid); [discriminate|].
  intros _. simpl. apply lookup_insert_eq.
Qed.

(** C4 at the failing input: the issue asks for a due date 7 days ahead;
    the handler answers 201 and the stored transaction is due 14 days after
    its borrow date. *)
Theorem requested_dueDate_overwritten :
  Run.issued_for_a_week.1 = mkResponse 201 "Book issued successfully"
  ∧ ∃ t, transactions Run.issued_for_a_week.2 !! 1%nat = Some t
         ∧ Transaction.borrowDate t = Scenario.t0
         ∧ Transaction.dueDate t = Scenario.t0 + 14 * JS.day_ms
         ∧ Transaction.dueDate t ≠ Scenario.t0 + 7 * JS.day_ms.
Proof.
  split; [vm_compute; reflexivity|].
  eexists. split; [vm_compute; reflexivity|].
  repeat split; vm_compute; congruence.
Qed.

(** ** The return handler *)

(** For an admin and a stored transaction that is not returned the handler
    always answers 500, and it never writes a book. *)
Lemma return_fails io now actor transactionId db t :
  actor_role actor = User.admin →
  transactions db !! transactionId = Some t →
  Transaction.status t ≠ Transaction.returned →
  (Routes.post_return io now actor transactionId db).1
  = mkResponse 500 "Failed to return book"
  ∧ books (Routes.post_return io now actor transactionId db).2 = books db.
Proof.
  intros Hadmin Hl Hs. unfold Routes.post_return.
  rewrite (bool_decide_eq_true_2 _ Hadmin), Hl, (bool_decide_eq_false_2 _ Hs).
  cbn [negb].
  destruct (Transaction.returnBook now t) as [t'|]; [|done].
  destruct (books db !! Transaction.book t); done.
Qed.

(** C6 at the failing input: the loan of the scenario is stored and
    overdue; the return is answered 500, the loan is stored as returned, and
    the book still has 0 of its 1 copies available. *)
Theorem return_does_not_succeed :
  transactions Scenario.swept.1 !! 1%nat = Some Trace.overdue_loan
  ∧ Scenario.given_back.1 = mkResponse 500 "Failed to return book"
  ∧ transactions Scenario.given_back.2 !! 1%nat = Some Trace.returned_loan
  ∧ books Scenario.given_back.2 !! Scenario.novel
    = Some (Book.mk (Some true) (Some 1) (Some 0) (Some 1) (Some Scenario.t0)).
Proof. repeat split; vm_compute; reflexivity. Qed.

(** C1 at the failing input, step by step.  Issue: 201, no copy left, the
    loan active and due 14 days after the borrow date.  Sweep 15 days later:
    the loan is overdue, its fine is 0, and 0 is the fine sent with the
    notification.  Return: answered 500, the loan returned with its return
    date set and its fine 0, and still no copy available. *)
Theorem fine_scenario :
  (Scenario.issued.1 = mkResponse 201 "Book issued successfully"
   ∧ (Book.availableCopies <$> books Scenario.issued.2 !! Scenario.novel)
     = Some (Some 0)
   ∧ transactions Scenario.issued.2 !! 1%nat
     = Some (Transaction.mk Scenario.reader Scenario.novel Transaction.borrow
               Scenario.t0 (Scenario.t0 + 14 * JS.day_ms) None
               Transaction.active 0 0 9))
  ∧ (transactions Scenario.swept.1 !! 1%nat
     = Some (Transaction.mk Scenario.reader Scenario.novel Transaction.borrow
               Scenario.t0 (Scenario.t0 + 14 * JS.day_ms) None
               Transaction.overdue 0 0 9)
     ∧ Scenario.swept.2 = [AutomationService.mkEvent Scenario.reader 1 0])
  ∧ (Scenario.given_back.1 = mkResponse 500 "Failed to return book"
     ∧ transactions Scenario.given_back.2 !! 1%nat
       = Some (Transaction.mk Scenario.reader Scenario.novel Transaction.borrow
                 Scenario.t0 (Scenario.t0 + 14 * JS.day_ms)
                 (Some (Scenario.t0 + 15 * JS.day_ms))
                 Transaction.returned 0 0 9)
     ∧ (Book.availableCopies <$> books Scenario.given_back.2 !! Scenario.novel)
       = Some (Some 0)).
Proof. repeat split; vm_compute; reflexivity. Qed.

(** ** The renew handler *)

(** After a renewal that succeeded, no renewal of the same transaction
    succeeds, at any time and for any actor; the database stays as it is. *)
Lemma renew_again_fails io now actor io' now' actor' transactionId db :
  code (Routes.post_renew io now actor transactionId db).1 = 200 →
  code (Routes.post_renew io' now' actor' transactionId
          (Routes.post_renew io now actor transactionId db).2).1 ≠ 200
  ∧ (Routes.post_renew io' now' actor' transactionId
       (Routes.post_renew io now actor transactionId db).2).2
    = (Routes.post_renew io now actor transactionId db).2.
Proof.
  unfold Routes.post_renew at 1 3 5 6.
  destruct (transactions db !! transactionId) as [t|] eqn:Hl; [|discriminate].
  destruct (users db !! Transaction.user t) as [u|] eqn:Hu; [|discriminate].
  destruct (negb _ && negb _); [discriminate|].
  destruct (Transaction.renewBook now t) as [t'|] eqn:Hren; [|discriminate].
  destruct (io && _); [discriminate|].
  intros _. apply renewBook_Ok in Hren as (_ & _ & ->).
  unfold Routes.post_renew. simpl. rewrite lookup_insert_eq. simpl. rewrite Hu.
  destruct (negb _ && negb _); [split; [discriminate | done]|].
  unfold Transaction.renewBook. simpl.
  destruct (3 <=? Transaction.renewalCount t + 1); split; done.
Qed.

(** C2 at the failing input: the first renewal of the active loan is
    answered 200 and stores renewalCount 1, the due date 14 days later and
    status renewed; the second renewal is answered 500 and changes
    nothing. *)
Theorem second_renewal_fails :
  transactions Scenario.issued.2 !! 1%nat
  = Some (Transaction.mk Scenario.reader Scenario.novel Transaction.borrow
            Scenario.t0 (Scenario.t0 + JS.loan_ms) None Transaction.active 0 0 9)
  ∧ Run.renewed_once.1 = mkResponse 200 "Book renewed successfully"
  ∧ transactions Run.renewed_once.2 !! 1%nat
    = Some (Transaction.mk Scenario.reader Scenario.novel Transaction.borrow
              Scenario.t0 (Scenario.t0 + JS.loan_ms + JS.loan_ms) None
              Transaction.renewed 0 1 9)
  ∧ Run.renewed_twice = (mkResponse 500 "Failed to renew book", Run.renewed_once.2).
Proof. repeat split; vm_compute; reflexivity. Qed.

(** ** What the slips hide *)

(** On the overdue loan of the scenario, fifteen days after the issue,
    [calculateFine] computes one day's fine; the sweep and the return never
    call it on a document in that status. *)
Lemma calculateFine_one_day_late :
  Transaction.fineAmount
    (Transaction.calculateFine (Scenario.t0 + 15 * JS.day_ms) Trace.overdue_loan) = 1.
Proof. vm_compute; reflexivity. Qed.

(** On the book loaded in full, [returnBook] restores the copy. *)
Lemma returnBook_full_document :
  Book.returnBook (Book.mk (Some true) (Some 1) (Some 0) (Some 1) (Some Scenario.t0))
  = Ok (Book.mk (Some true) (Some 1) (Some 1) (Some 1) (Some Scenario.t0)).
Proof. vm_compute; reflexivity. Qed.

(** A withdrawn book is reported after the user was looked up, and as an
    unavailable book. *)
Lemma withdrawn_book_checked_after_user :
  Routes.post_issue Scenario.t0 1%nat Scenario.librarian Scenario.novel 8%nat None
    db_withdrawn
  = (mkResponse 404 "User not found", db_withdrawn)
  ∧ Routes.post_issue Scenario.t0 1%nat Scenario.librarian Scenario.novel
      Scenario.reader None db_withdrawn
    = (mkResponse 400 "Book is not available for borrowing", db_withdrawn).
Proof. split; vm_compute; reflexivity. Qed.

(** * Further properties of the engine *)

(** ** One operation, one transaction *)

Lemma sweep_loop_keeps io now found db sent k :
  is_Some (transactions db !! k) →
  is_Some (transactions (AutomationService.sweep_loop io now found db sent).1 !! k).
Proof.
  revert db sent. induction found as [|[id t] rest IH]; intros db sent Hk; simpl; [done|].
  destruct (Transaction.save _ _ _) as [t1|]; [|done].
  assert (is_Some (transactions
            (set_transactions (<[id:=t1]> (transactions db)) db) !! k)) as Hk'.
  { simpl. apply lookup_insert_is_Some. destruct (decide (id = k)); auto. }
  destruct io; [|by apply IH].
  destruct (users db !! Transaction.user t), (books db !! Transaction.book t);
    first [by apply IH | done].
Qed.

Lemma sweep_loop_other io now found db sent k :
  k ∉ found.*1 →
  transactions (AutomationService.sweep_loop io now found db sent).1 !! k
  = transactions db !! k.
Proof.
  revert db sent. induction found as [|[id t] rest IH]; intros db sent Hk; simpl; [done|].
  simpl in Hk. apply not_elem_of_cons in Hk as [Hne Hk].
  destruct (Transaction.save _ _ _) as [t1|]; [|done].
  assert (transactions (set_transactions (<[id:=t1]> (transactions db)) db) !! k
          = transactions db !! k) as Hk'.
  { simpl. by rewrite lookup_insert_ne. }
  destruct io; [|by rewrite IH].
  destruct (users db !! Transaction.user t), (books db !! Transaction.book t);
    first [by rewrite IH | done].
Qed.

Lemma sweep_tx_change io now db id t' :
  transactions (AutomationService.checkOverdueBooks io now db).1 !! id = Some t' →
  tx_change now (transactions db !! id) t'.
Proof.
  unfold AutomationService.checkOverdueBooks. intros H.
  apply sweep_loop_lookup in H as [H | (t & Hin & Hsave)].
  - rewrite H. constructor.
  - apply find_spec in Hin as [Hl Hq].
    apply overdue_query_spec in Hq as [Hs Hd].
    rewrite calculateFine_not_overdue in Hsave by (rewrite Hs; done).
    apply Transaction_save_existing in Hsave as [_ ->].
    rewrite Hl. by constructor.
Qed.

Lemma issue_tx_change now tid actor bookId userId dueDate db id t' :
  transactions (Routes.post_issue now tid actor bookId userId dueDate db).2 !! id
  = Some t' →
  tx_change now (transactions db !! id) t'.
Proof.
  assert (transactions db !! id = Some t' → tx_change now (transactions db !! id) t')
    as Hsame by (intros ->; constructor).
  unfold Routes.post_issue.
  destruct (negb _); [done|].
  destruct (books db !! bookId) as [bk|]; [|done].
  destruct (users db !! userId) as [u|]; [|done].
  destruct (negb (Book.canBorrow bk)); [done|].
  destruct (0 <? _)%nat; [done|].
  destruct (5 <=? _)%nat; [done|].
  destruct (Book.borrowBook now bk) as [bk'|]; [|done].
  rewrite save_new_borrow.
  destruct (transactions db !! tid) eqn:Htid; [done|]. simpl.
  destruct (decide (tid = id)) as [<-|Hne].
  - rewrite lookup_insert_eq, Htid. intros [= <-]. constructor.
  - rewrite lookup_insert_ne by done. done.
Qed.

Lemma return_tx_change io now actor transactionId db id t' :
  transactions (Routes.post_return io now actor transactionId db).2 !! id = Some t' →
  tx_change now (transactions db !! id) t'.
Proof.
  assert (transactions db !! id = Some t' → tx_change now (transactions db !! id) t')
    as Hsame by (intros ->; constructor).
  unfold Routes.post_return.
  destruct (negb _); [done|].
  destruct (transactions db !! transactionId) as [t|] eqn:Ht; [|done].
  destruct (bool_decide _); [done|].
  destruct (Transaction.returnBook now t) as [t1|] eqn:Hret; [|done].
  apply returnBook_Ok in Hret as (Hs & _ & ->).
  assert (transactions (set_transactions
            (<[transactionId:=Transaction.set_status Transaction.returned
                 (Transaction.set_returnDate (Some now) t)]> (transactions db)) db) !! id
          = Some t' → tx_change now (transactions db !! id) t') as Hins.
  { simpl. destruct (decide (transactionId = id)) as [<-|Hne].
    - rewrite lookup_insert_eq, Ht. intros [= <-]. by constructor.
    - rewrite lookup_insert_ne by done. done. }
  destruct (books db !! Transaction.book t) as [bk|]; simpl; exact Hins.
Qed.

Lemma renew_tx_change io now actor transactionId db id t' :
  transactions (Routes.post_renew io now actor transactionId db).2 !! id = Some t' →
  tx_change now (transactions db !! id) t'.
Proof.
  assert (transactions db !! id = Some t' → tx_change now (transactions db !! id) t')
    as Hsame by (intros ->; constructor).
  unfold Routes.post_renew.
  destruct (transactions db !! transactionId) as [t|] eqn:Ht; [|done].
  destruct (users db !! Transaction.user t); [|done].
  destruct (negb _ && negb _); [done|].
  destruct (Transaction.renewBook now t) as [t1|] eqn:Hren; [|done].
  apply renewBook_Ok in Hren as (Hr & Hs & ->).
  assert (transactions (set_transactions
     (<[transactionId:=Transaction.set_status Transaction.renewed
          (Transaction.set_dueDate (Transaction.dueDate t + JS.loan_ms)
             (Transaction.set_renewalCount (Transaction.renewalCount t + 1) t))]>
        (transactions db)) db) !! id = Some t' →
    tx_change now (transactions db !! id) t') as Hins; [|by destruct (io && _)].
  simpl. destruct (decide (transactionId = id)) as [<-|Hne].
  - rewrite lookup_insert_eq, Ht. intros [= <-]. by constructor.
  - rewrite lookup_insert_ne by done. done.
Qed.

Lemma step_tx_change now op db id t' :
  transactions (step now op db) !! id = Some t' →
  tx_change now (transactions db !! id) t'.
Proof.
  destruct op; simpl.
  - apply issue_tx_change.
  - apply return_tx_change.
  - apply renew_tx_change.
  - apply sweep_tx_change.
Qed.

Lemma step_tx_keeps now op db id :
  is_Some (transactions db !! id) →
  is_Some (transactions (step now op db) !! id).
Proof.
  intros Hk.
  assert (∀ k t, is_Some (<[k:=t]> (transactions db) !! id)) as Hins.
  { intros k t. apply lookup_insert_is_Some. destruct (decide (k = id)); auto. }
  destruct op as [tid actor bookId userId due | io actor tr | io' actor tr | io]; simpl.
  - unfold Routes.post_issue.
    destruct (negb _); [done|].
    destruct (books db !! bookId) as [bk|]; [|done].
    destruct (users db !! userId) as [u|]; [|done].
    destruct (negb (Book.canBorrow bk)); [done|].
    destruct (0 <? _)%nat; [done|].
    destruct (5 <=? _)%nat; [done|].
    destruct (Book.borrowBook now bk) as [bk'|]; [|done].
    destruct (Transaction.save _ _ _); [|done].
    destruct (transactions db !! tid); [done|]. apply Hins.
  - unfold Routes.post_return.
    destruct (negb _); [done|].
    destruct (transactions db !! tr) as [t|]; [|done].
    destruct (bool_decide _); [done|].
    destruct (Transaction.returnBook now t) as [t1|]; [|done].
    destruct (books db !! Transaction.book t) as [bk|]; simpl; apply Hins.
  - unfold Routes.post_renew.
    destruct (transactions db !! tr) as [t|]; [|done].
    destruct (users db !! Transaction.user t); [|done].
    destruct (negb _ && negb _); [done|].
    destruct (Transaction.renewBook now t) as [t1|]; [|done].
    destruct (_ && _); apply Hins.
  - by apply sweep_loop_keeps.
Qed.

(** An induction principle: what holds of every created transaction and is
    kept by every change holds in every reachable state. *)
Lemma reachable_tx_invariant (Q : Transaction.doc → Prop) :
  (∀ now t', tx_change now None t' → Q t') →
  (∀ now t t', Q t → tx_change now (Some t) t' → Q t') →
  ∀ db, reachable db → ∀ id t, transactions db !! id = Some t → Q t.
Proof.
  intros Hnew Hkeep db Hreach.
  induction Hreach as [bs us | db now op _ IH | db bs us _ IH _ _]; intros id t Hl.
  - simpl in Hl. by rewrite lookup_empty in Hl.
  - apply step_tx_change in Hl.
    destruct (transactions db !! id) as [t0|] eqn:H0.
    + apply (Hkeep now t0); [by apply (IH id)|done].
    + by apply (Hnew now).
  - by apply (IH id).
Qed.

(** ** What no operation undoes *)

(** X1.  [returned] is terminal: whatever operation runs, at whatever time
    and for whatever actor, a stored transaction that is returned stays
    stored and unchanged. *)
Theorem returned_is_terminal (now : Z) (op : Op) (db : DB) (id : nat)
    (t : Transaction.doc) :
  transactions db !! id = Some t →
  Transaction.status t = Transaction.returned →
  transactions (step now op db) !! id = Some t.
Proof.
  intros Hl Hs.
  destruct (step_tx_keeps now op db id) as [t' Ht']; [by rewrite Hl|].
  rewrite Ht'. f_equal.
  apply step_tx_change in Ht'. rewrite Hl in Ht'.
  inversion Ht'; subst; try done; congruence.
Qed.

Lemma returned_is_terminal_witness :
  transactions Trace.after_return !! 1%nat = Some Trace.returned_loan
  ∧ transactions
      (step (Scenario.t0 + 40 * JS.day_ms)
         (Renew true (mkActor Scenario.reader User.member) 1%nat) Trace.after_return)
      !! 1%nat = Some Trace.returned_loan.
Proof.
  split; [vm_compute; reflexivity|].
  apply returned_is_terminal; [vm_compute; reflexivity | reflexivity].
Defined.

(** X2.  The sweep writes only transactions that are active with a due date
    in the past: in any database, every other transaction, all books and
    all users are as before. *)
Theorem sweep_touches_only_late_active (io : bool) (now : Z) (db : DB) (id : nat)
    (t : Transaction.doc) :
  transactions db !! id = Some t →
  Transaction.status t ≠ Transaction.active ∨ now <= Transaction.dueDate t →
  transactions (AutomationService.checkOverdueBooks io now db).1 !! id = Some t
  ∧ books (AutomationService.checkOverdueBooks io now db).1 = books db
  ∧ users (AutomationService.checkOverdueBooks io now db).1 = users db.
Proof.
  intros Hl Hnot. unfold AutomationService.checkOverdueBooks.
  split; [|apply sweep_loop_catalogue].
  rewrite sweep_loop_other; [done|].
  intros Hin. apply list_elem_of_fmap in Hin as ([id' t0] & -> & Hin). simpl in *.
  apply find_spec in Hin as [Hl0 Hq]. apply overdue_query_spec in Hq as [Hs Hd].
  rewrite Hl in Hl0. injection Hl0 as <-. destruct Hnot; [done | lia].
Qed.

Lemma sweep_touches_only_late_active_witness :
  transactions Run.renewed_once.2 !! 1%nat = Some renewed_loan
  ∧ transactions (AutomationService.checkOverdueBooks true
                    (Scenario.t0 + 30 * JS.day_ms) Run.renewed_once.2).1 !! 1%nat
    = Some renewed_loan.
Proof.
  split; [vm_compute; reflexivity|].
  refine (proj1 (sweep_touches_only_late_active true (Scenario.t0 + 30 * JS.day_ms)
                   Run.renewed_once.2 1%nat renewed_loan _ _)).
  - vm_compute; reflexivity.
  - left. discriminate.
Defined.

(** ** The shape of a stored loan *)

Lemma reachable_loan_shape (db : DB) (id : nat) (t : Transaction.doc) :
  reachable db →
  transactions db !! id = Some t →
  Transaction.type t = Transaction.borrow
  ∧ Transaction.dueDate t
    = Transaction.borrowDate t + JS.loan_ms * (1 + Transaction.renewalCount t)
  ∧ (Transaction.status t = Transaction.active
     ∨ Transaction.status t = Transaction.overdue → Transaction.renewalCount t = 0)
  ∧ (Transaction.status t = Transaction.renewed → Transaction.renewalCount t = 1)
  ∧ 0 <= Transaction.renewalCount t <= 1.
Proof.
  intros Hreach Hl. revert db Hreach id t Hl.
  apply (reachable_tx_invariant (λ t,
    Transaction.type t = Transaction.borrow
    ∧ Transaction.dueDate t
      = Transaction.borrowDate t + JS.loan_ms * (1 + Transaction.renewalCount t)
    ∧ (Transaction.status t = Transaction.active
       ∨ Transaction.status t = Transaction.overdue → Transaction.renewalCount t = 0)
    ∧ (Transaction.status t = Transaction.renewed → Transaction.renewalCount t = 1)
    ∧ 0 <= Transaction.renewalCount t <= 1)).
  - intros now t' H. inversion H; subst; simpl.
    repeat split; try done; lia.
  - intros now t t' (Hty & Hdue & Hopen & Hren & Hrc) H.
    inversion H; subst.
    + done.
    + assert (Transaction.renewalCount t = 0) as Hz by auto.
      unfold Transaction.pre_save_status.
      destruct (_ && _ && _); simpl; [|done].
      repeat split; try done; lia.
    + assert (Transaction.renewalCount t = 0) as Hz by auto.
      simpl. repeat split; try done; try lia; intros [[=]|[=]].
    + simpl. repeat split; try done; try lia; intros [[=]|[=]].
Qed.

(** X3.  In every reachable state [renewalCount] is 0 or 1: it is 0 while
    the loan is active or overdue and 1 once it is renewed.  The limit of 3
    that [renewBook] tests is never reached. *)
Theorem renewalCount_at_most_one (db : DB) (id : nat) (t : Transaction.doc) :
  reachable db →
  transactions db !! id = Some t →
  0 <= Transaction.renewalCount t <= 1
  ∧ (Transaction.status t = Transaction.active
     ∨ Transaction.status t = Transaction.overdue → Transaction.renewalCount t = 0)
  ∧ (Transaction.status t = Transaction.renewed → Transaction.renewalCount t = 1).
Proof.
  intros Hreach Hl.
  destruct (reachable_loan_shape db id t Hreach Hl) as (_ & _ & H1 & H2 & H3). done.
Qed.

Lemma renewalCount_at_most_one_witness :
  reachable Run.renewed_once.2
  ∧ transactions Run.renewed_once.2 !! 1%nat = Some renewed_loan
  ∧ 0 <= Transaction.renewalCount renewed_loan <= 1.
Proof.
  split; [exact reachable_renewed_once|]. split; [vm_compute; reflexivity|].
  refine (proj1 (renewalCount_at_most_one Run.renewed_once.2 1%nat renewed_loan
                   reachable_renewed_once _)).
  vm_compute; reflexivity.
Defined.

(** X4.  In every reachable state a loan is of type [borrow] and is due 14
    days after its borrow date, plus 14 days for its renewal:
    [dueDate = borrowDate + 14 days * (1 + renewalCount)]. *)
Theorem dueDate_from_borrowDate (db : DB) (id : nat) (t : Transaction.doc) :
  reachable db →
  transactions db !! id = Some t →
  Transaction.type t = Transaction.borrow
  ∧ Transaction.dueDate t
    = Transaction.borrowDate t + JS.loan_ms * (1 + Transaction.renewalCount t).
Proof.
  intros Hreach Hl.
  destruct (reachable_loan_shape db id t Hreach Hl) as (H1 & H2 & _). done.
Qed.

Lemma dueDate_from_borrowDate_witness :
  reachable Run.renewed_once.2
  ∧ transactions Run.renewed_once.2 !! 1%nat = Some renewed_loan
  ∧ Transaction.dueDate renewed_loan
    = Transaction.borrowDate renewed_loan
      + JS.loan_ms * (1 + Transaction.renewalCount renewed_loan).
Proof.
  split; [exact reachable_renewed_once|]. split; [vm_compute; reflexivity|].
  refine (proj2 (dueDate_from_borrowDate Run.renewed_once.2 1%nat renewed_loan
                   reachable_renewed_once _)).
  vm_compute; reflexivity.
Defined.

(** ** Counting open loans *)

Lemma find_length (q : Transaction.doc → bool) (c : gmap nat Transaction.doc) :
  length (Transaction.find q c)
  = size (filter (λ kt : nat * Transaction.doc, q kt.2 = true) c).
Proof. unfold Transaction.find. apply length_map_to_list. Qed.

Lemma count_insert_fresh (q : Transaction.doc → bool) c k t :
  c !! k = None →
  (length (Transaction.find q (<[k:=t]> c)) ≤ S (length (Transaction.find q c)))%nat.
Proof.
  intros Hk. rewrite !find_length, map_filter_insert.
  case_decide.
  - rewrite map_size_insert_None; [done|].
    apply map_lookup_filter_None. auto.
  - rewrite delete_id by done. lia.
Qed.

Lemma count_insert_closed (q : Transaction.doc → bool) c k t :
  q t = false →
  (length (Transaction.find q (<[k:=t]> c)) ≤ length (Transaction.find q c))%nat.
Proof.
  intros Hq. rewrite !find_length, map_filter_insert_False by (simpl; congruence).
  rewrite map_filter_delete, map_size_delete.
  destruct (filter _ c !! k); simpl; lia.
Qed.

Lemma count_insert_closes (q : Transaction.doc → bool) c k t t' :
  c !! k = Some t → q t = true → q t' = false →
  S (length (Transaction.find q (<[k:=t']> c))) = length (Transaction.find q c).
Proof.
  intros Hk Hq Hq'.
  rewrite !find_length, map_filter_insert_False by (simpl; congruence).
  rewrite map_filter_delete, map_size_delete.
  assert (filter (λ kt : nat * Transaction.doc, q kt.2 = true) c !! k = Some t) as Hf
    by (by apply map_lookup_filter_Some).
  rewrite Hf. simpl.
  assert (size (filter (λ kt : nat * Transaction.doc, q kt.2 = true) c) ≠ 0%nat).
  { intros H0. apply map_size_empty_inv in H0. rewrite H0 in Hf.
    by rewrite lookup_empty in Hf. }
  lia.
Qed.

Lemma count_sweep io now db (q : Transaction.doc → bool) :
  db_ok db →
  (∀ t, q (Transaction.set_status Transaction.overdue t) = q t
        ∨ Transaction.status t ≠ Transaction.active) →
  length (Transaction.find q
            (transactions (AutomationService.checkOverdueBooks io now db).1))
  = length (Transaction.find q (transactions db)).
Proof.
  intros Hok Hq. rewrite !find_length.
  set (f := λ t, if Transaction.overdue_query now t
                 then Transaction.set_status Transaction.overdue t else t).
  assert (transactions (AutomationService.checkOverdueBooks io now db).1
          = f <$> transactions db) as ->.
  { apply map_eq. intros k. rewrite lookup_fmap. by apply sweep_lookup. }
  rewrite map_filter_fmap, map_size_fmap. f_equal.
  apply map_filter_ext. intros k t _. simpl. unfold f.
  destruct (Transaction.overdue_query now t) eqn:Hquery; [|done].
  apply overdue_query_spec in Hquery as [Hs _].
  destruct (Hq t) as [-> | Hn]; done.
Qed.

Lemma open_of_active userId t :
  Routes.open_of userId t = true →
  Routes.open_of userId (Transaction.set_status Transaction.overdue t) = true.
Proof.
  unfold Routes.open_of. simpl. intros H.
  apply andb_true_iff in H as [-> _]. done.
Qed.

Lemma borrow_cap_invariant_aux (db : DB) (userId : nat) :
  reachable db →
  (length (Transaction.find (Routes.open_of userId) (transactions db)) ≤ 5)%nat.
Proof.
  intros Hreach.
  induction Hreach as [bs us | db now op Hreach IH | db bs us _ IH _ _]; simpl.
  - rewrite find_length, map_filter_empty, map_size_empty. lia.
  - destruct op as [tid actor bookId u due | io actor tr | io' actor tr | io]; simpl.
    + unfold Routes.post_issue.
      destruct (negb _); [done|].
      destruct (books db !! bookId) as [bk|]; [|done].
      destruct (users db !! u); [|done].
      destruct (negb (Book.canBorrow bk)); [done|].
      destruct (0 <? _)%nat; [done|].
      destruct (5 <=? _)%nat eqn:Hcap; [done|].
      destruct (Book.borrowBook now bk) as [bk'|]; [|done].
      rewrite save_new_borrow.
      destruct (transactions db !! tid) eqn:Htid; [done|]. simpl.
      apply Nat.leb_gt in Hcap.
      destruct (decide (u = userId)) as [->|Hne].
      * etrans; [by apply count_insert_fresh|]. lia.
      * etrans; [apply count_insert_closed|done].
        unfold Routes.open_of. simpl. by rewrite bool_decide_eq_false_2.
    + unfold Routes.post_return.
      destruct (negb _); [done|].
      destruct (transactions db !! tr) as [t|]; [|done].
      destruct (bool_decide _); [done|].
      destruct (Transaction.returnBook now t) as [t1|] eqn:Hret; [|done].
      apply returnBook_Ok in Hret as (_ & _ & ->).
      assert (length (Transaction.find (Routes.open_of userId)
                (<[tr:=Transaction.set_status Transaction.returned
                     (Transaction.set_returnDate (Some now) t)]> (transactions db)))
              ≤ 5)%nat as Hins.
      { etrans; [apply count_insert_closed|done].
        unfold Routes.open_of. simpl. apply andb_false_r. }
      destruct (books db !! Transaction.book t); simpl; exact Hins.
    + unfold Routes.post_renew.
      destruct (transactions db !! tr) as [t|]; [|done].
      destruct (users db !! Transaction.user t); [|done].
      destruct (negb _ && negb _); [done|].
      destruct (Transaction.renewBook now t) as [t1|] eqn:Hren; [|done].
      apply renewBook_Ok in Hren as (_ & _ & ->).
      assert (length (Transaction.find (Routes.open_of userId)
                (<[tr:=Transaction.set_status Transaction.renewed
                     (Transaction.set_dueDate (Transaction.dueDate t + JS.loan_ms)
                        (Transaction.set_renewalCount
                           (Transaction.renewalCount t + 1) t))]> (transactions db)))
              ≤ 5)%nat as Hins; [|by destruct (_ && _)].
      etrans; [apply count_insert_closed|done].
      unfold Routes.open_of. simpl. apply andb_false_r.
    + rewrite count_sweep; [done | by apply reachable_db_ok |].
      intros t. destruct (decide (Transaction.status t = Transaction.active)) as [Hs|];
        [left | by right].
      unfold Routes.open_of. simpl. rewrite Hs. done.
  - done.
Qed.

(** X5.  The borrow cap is an invariant: in every reachable state no user
    has more than 5 transactions that are active or overdue. *)
Theorem borrow_cap_invariant (db : DB) (userId : nat) :
  reachable db →
  (length (Transaction.find (Routes.open_of userId) (transactions db)) ≤ 5)%nat.
Proof. apply borrow_cap_invariant_aux. Qed.

Lemma borrow_cap_invariant_witness :
  reachable Trace.after_sweep
  ∧ (length (Transaction.find (Routes.open_of Scenario.reader)
               (transactions Trace.after_sweep)) ≤ 5)%nat.
Proof.
  split; [exact reachable_after_sweep|].
  apply (borrow_cap_invariant Trace.after_sweep Scenario.reader reachable_after_sweep).
Defined.

(** X6.  A renewal that succeeds takes the loan out of the borrower's count
    of active-or-overdue transactions: the count that the issue handler
    compares with 5 drops by exactly one. *)
Theorem renewal_frees_a_slot io now actor transactionId db t :
  transactions db !! transactionId = Some t →
  code (Routes.post_renew io now actor transactionId db).1 = 200 →
  S (length (Transaction.find (Routes.open_of (Transaction.user t))
               (transactions (Routes.post_renew io now actor transactionId db).2)))
  = length (Transaction.find (Routes.open_of (Transaction.user t)) (transactions db)).
Proof.
  intros Hl. unfold Routes.post_renew. rewrite Hl.
  destruct (users db !! Transaction.user t); [|discriminate].
  destruct (negb _ && negb _); [discriminate|].
  destruct (Transaction.renewBook now t) as [t1|] eqn:Hren; [|discriminate].
  destruct (io && _); [discriminate|].
  apply renewBook_Ok in Hren as (_ & Hs & ->). intros _. simpl.
  apply (count_insert_closes _ _ _ t); [done| |].
  - unfold Routes.open_of. rewrite Hs. simpl. by rewrite bool_decide_eq_true_2.
  - unfold Routes.open_of. simpl. apply andb_false_r.
Qed.

Lemma renewal_frees_a_slot_witness :
  transactions Scenario.issued.2 !! 1%nat
  = Some (Transaction.set_status Transaction.active Trace.overdue_loan)
  ∧ code Run.renewed_once.1 = 200
  ∧ S (length (Transaction.find (Routes.open_of Scenario.reader)
                 (transactions Run.renewed_once.2)))
    = length (Transaction.find (Routes.open_of Scenario.reader)
                (transactions Scenario.issued.2)).
Proof.
  split; [vm_compute; reflexivity|]. split; [reflexivity|].
  apply (renewal_frees_a_slot true (Scenario.t0 + JS.day_ms)
           (mkActor Scenario.reader User.member) 1%nat Scenario.issued.2
           (Transaction.set_status Transaction.active Trace.overdue_loan)).
  - vm_compute; reflexivity.
  - reflexivity.
Defined.

(** ** The effect of the handlers *)

Lemma borrowBook_Ok now b b' :
  Book.borrowBook now b = Ok b' →
  ∃ a t, Book.availableCopies b = Some a ∧ Book.totalCopies b = Some t ∧ 0 < a
       ∧ b' = Book.mk (Book.isActive b) (Some t) (Some (Z.min (a - 1) t))
                (JS.add (Book.borrowCount b) 1) (Some now).
Proof.
  unfold Book.borrowBook. destruct (Book.canBorrow b) eqn:Hc; [|discriminate].
  apply canBorrow_spec in Hc as (_ & a & Ha & Hpos).
  unfold Book.save, Book.validate, Book.pre_save. simpl. rewrite Ha. simpl.
  destruct (Book.totalCopies b) as [t|]; [|discriminate].
  destruct ((1 <=? t) && (t <=? 1000) && (0 <=? a + -1)); [|discriminate].
  unfold JS.gt, JS.lt, Book.set_availableCopies. simpl.
  destruct (t <? a + -1) eqn:Hcap; intros [= <-]; exists a, t;
    repeat split; try done; f_equal; f_equal.
  - apply Z.ltb_lt in Hcap. lia.
  - apply Z.ltb_ge in Hcap. lia.
Qed.

Lemma return_books io now actor transactionId db :
  books (Routes.post_return io now actor transactionId db).2 = books db.
Proof.
  unfold Routes.post_return.
  destruct (negb _); [done|].
  destruct (transactions db !! transactionId) as [t|]; [|done].
  destruct (bool_decide _); [done|].
  destruct (Transaction.returnBook now t) as [t1|]; [|done].
  destruct (books db !! Transaction.book t); done.
Qed.

Lemma renew_books io now actor transactionId db :
  books (Routes.post_renew io now actor transactionId db).2 = books db
  ∧ users (Routes.post_renew io now actor transactionId db).2 = users db.
Proof.
  unfold Routes.post_renew.
  destruct (transactions db !! transactionId) as [t|]; [|done].
  destruct (users db !! Transaction.user t); [|done].
  destruct (negb _ && negb _); [done|].
  destruct (Transaction.renewBook now t); [destruct (_ && _)|]; done.
Qed.

(** X7.  No operation of the engine gives a copy back: after an issue, a
    return, a renewal or a sweep every stored book is still stored, and its
    [availableCopies] is at most what it was. *)
Theorem availableCopies_never_increases (now : Z) (op : Op) (db : DB) (id : nat)
    (b : Book.doc) (a : Z) :
  books db !! id = Some b →
  Book.availableCopies b = Some a →
  ∃ b' a', books (step now op db) !! id = Some b'
           ∧ Book.availableCopies b' = Some a' ∧ a' <= a.
Proof.
  intros Hb Ha.
  assert (∃ b' a', books db !! id = Some b'
                   ∧ Book.availableCopies b' = Some a' ∧ a' <= a) as Hsame.
  { exists b, a. repeat split; try done; lia. }
  destruct op as [tid actor bookId u due | io actor tr | io' actor tr | io]; simpl.
  - unfold Routes.post_issue.
    destruct (negb _); [done|].
    destruct (books db !! bookId) as [bk|] eqn:Hbk; [|done].
    destruct (users db !! u); [|done].
    destruct (negb (Book.canBorrow bk)); [done|].
    destruct (0 <? _)%nat; [done|].
    destruct (5 <=? _)%nat; [done|].
    destruct (Book.borrowBook now bk) as [bk'|] eqn:Hborrow; [|done].
    assert (∃ b' a', <[bookId:=bk']> (books db) !! id = Some b'
                     ∧ Book.availableCopies b' = Some a' ∧ a' <= a) as Hins.
    { destruct (decide (bookId = id)) as [->|Hne].
      - rewrite lookup_insert_eq.
        apply borrowBook_Ok in Hborrow as (a0 & t0 & Ha0 & _ & _ & ->).
        rewrite Hb in Hbk. injection Hbk as <-.
        rewrite Ha in Ha0. injection Ha0 as <-.
        eexists _, _. repeat split. simpl. lia.
      - rewrite lookup_insert_ne by done. done. }
    destruct (Transaction.save _ _ _); [|done].
    destruct (transactions db !! tid); done.
  - by rewrite return_books.
  - by rewrite (proj1 (renew_books io' now actor tr db)).
  - unfold AutomationService.checkOverdueBooks.
    by rewrite (proj1 (sweep_loop_catalogue _ _ _ _ _)).
Qed.

Lemma availableCopies_never_increases_witness :
  books Trace.after_sweep !! Scenario.novel
  = Some (Book.mk (Some true) (Some 1) (Some 0) (Some 1) (Some Scenario.t0))
  ∧ ∃ b' a', books Trace.after_return !! Scenario.novel = Some b'
             ∧ Book.availableCopies b' = Some a' ∧ a' <= 0.
Proof.
  split; [vm_compute; reflexivity|].
  apply (availableCopies_never_increases (Scenario.t0 + 15 * JS.day_ms)
           (Return true Scenario.librarian 1%nat) Trace.after_sweep Scenario.novel
           (Book.mk (Some true) (Some 1) (Some 0) (Some 1) (Some Scenario.t0)) 0).
  - vm_compute; reflexivity.
  - reflexivity.
Defined.

(** X8.  The whole effect of an issue that is answered 201: the id was
    free and now holds the new active loan, due 14 days after [now]; the
    book had a copy and now has one fewer (never more than [totalCopies]),
    its [borrowCount] is one higher and [lastBorrowed] is [now]; every other
    book, every user and every other transaction is as before. *)
Theorem issue_effect now tid actor bookId userId dueDate db :
  code (Routes.post_issue now tid actor bookId userId dueDate db).1 = 201 →
  ∃ b a t,
    books db !! bookId = Some b
    ∧ Book.availableCopies b = Some a ∧ Book.totalCopies b = Some t ∧ 0 < a
    ∧ transactions db !! tid = None
    ∧ (Routes.post_issue now tid actor bookId userId dueDate db).2
      = mkDB
          (<[bookId := Book.mk (Book.isActive b) (Some t) (Some (Z.min (a - 1) t))
                         (JS.add (Book.borrowCount b) 1) (Some now)]> (books db))
          (users db)
          (<[tid := Transaction.mk userId bookId Transaction.borrow now
                      (now + JS.loan_ms) None Transaction.active 0 0
                      (actor_id actor)]> (transactions db)).
Proof.
  unfold Routes.post_issue.
  destruct (negb _); [discriminate|].
  destruct (books db !! bookId) as [bk|]; [|discriminate].
  destruct (users db !! userId) as [u|]; [|discriminate].
  destruct (negb (Book.canBorrow bk)); [discriminate|].
  destruct (0 <? _)%nat; [discriminate|].
  destruct (5 <=? _)%nat; [discriminate|].
  destruct (Book.borrowBook now bk) as [bk'|] eqn:Hborrow; [|discriminate].
  rewrite save_new_borrow.
  destruct (transactions db !! tid); [discriminate|].
  intros _. apply borrowBook_Ok in Hborrow as (a & t & Ha & Ht & Hpos & ->).
  exists bk, a, t. done.
Qed.

Lemma issue_effect_witness :
  code Scenario.issued.1 = 201
  ∧ ∃ b a t,
      books Scenario.db0 !! Scenario.novel = Some b
      ∧ Book.availableCopies b = Some a ∧ Book.totalCopies b = Some t ∧ 0 < a
      ∧ transactions Scenario.db0 !! 1%nat = None
      ∧ Scenario.issued.2
        = mkDB
            (<[Scenario.novel := Book.mk (Book.isActive b) (Some t)
                                   (Some (Z.min (a - 1) t))
                                   (JS.add (Book.borrowCount b) 1)
                                   (Some Scenario.t0)]> (books Scenario.db0))
            (users Scenario.db0)
            (<[1%nat := Transaction.mk Scenario.reader Scenario.novel
                          Transaction.borrow Scenario.t0
                          (Scenario.t0 + JS.loan_ms) None Transaction.active 0 0
                          (actor_id Scenario.librarian)]>
               (transactions Scenario.db0)).
Proof.
  split; [reflexivity|].
  apply (issue_effect Scenario.t0 1%nat Scenario.librarian Scenario.novel
           Scenario.reader None Scenario.db0).
  reflexivity.
Defined.

Lemma returnBook_succeeds now t :
  Transaction.status t ≠ Transaction.returned →
  Transaction.validate t = true →
  Transaction.returnBook now t
  = Ok (Transaction.set_status Transaction.returned
          (Transaction.set_returnDate (Some now) t)).
Proof.
  intros Hs Hv. unfold Transaction.returnBook.
  rewrite (bool_decide_eq_false_2 _ Hs).
  rewrite calculateFine_not_overdue by done.
  unfold Transaction.save.
  change (Transaction.validate
            (Transaction.set_status Transaction.returned
               (Transaction.set_returnDate (Some now) t)))
    with (Transaction.validate t).
  rewrite Hv. unfold Transaction.pre_save_dueDate. simpl.
  rewrite pre_save_status_not_active by done. done.
Qed.

(** X9.  Returning twice: once an admin has returned a stored loan that was
    not returned and passes its validators, any later return of it by an
    admin is answered 400 "Book already returned" and changes nothing. *)
Theorem second_return_refused io now actor io' now' actor' transactionId db t :
  actor_role actor = User.admin →
  actor_role actor' = User.admin →
  transactions db !! transactionId = Some t →
  Transaction.status t ≠ Transaction.returned →
  Transaction.validate t = true →
  Routes.post_return io' now' actor' transactionId
    (Routes.post_return io now actor transactionId db).2
  = (mkResponse 400 "Book already returned",
     (Routes.post_return io now actor transactionId db).2).
Proof.
  intros Hadmin Hadmin' Hl Hs Hv.
  assert (transactions (Routes.post_return io now actor transactionId db).2
            !! transactionId
          = Some (Transaction.set_status Transaction.returned
                    (Transaction.set_returnDate (Some now) t))) as Hstored.
  { unfold Routes.post_return.
    rewrite (bool_decide_eq_true_2 _ Hadmin), Hl, (bool_decide_eq_false_2 _ Hs).
    cbn [negb].
    rewrite (returnBook_succeeds now t Hs Hv).
    destruct (books db !! Transaction.book t); simpl; apply lookup_insert_eq. }
  unfold Routes.post_return at 1.
  rewrite (bool_decide_eq_true_2 _ Hadmin'), Hstored. done.
Qed.

Lemma second_return_refused_witness :
  transactions Trace.after_sweep !! 1%nat = Some Trace.overdue_loan
  ∧ Routes.post_return true (Scenario.t0 + 16 * JS.day_ms) Scenario.librarian 1%nat
      (Routes.post_return true (Scenario.t0 + 15 * JS.day_ms) Scenario.librarian
         1%nat Trace.after_sweep).2
    = (mkResponse 400 "Book already returned",
       (Routes.post_return true (Scenario.t0 + 15 * JS.day_ms) Scenario.librarian
          1%nat Trace.after_sweep).2).
Proof.
  split; [vm_compute; reflexivity|].
  apply (second_return_refused _ _ _ _ _ _ _ _ Trace.overdue_loan).
  - reflexivity.
  - reflexivity.
  - vm_compute; reflexivity.
  - discriminate.
  - reflexivity.
Defined.

(** X10.  The renew handler writes one thing or nothing.  When it answers
    200, and whenever it changes the database, the transaction was active
    with fewer than 3 renewals, the actor is its borrower or an admin, and
    the database differs only in that transaction, now renewed, with
    [renewalCount] one higher and the due date 14 days later.  A change is
    answered 200, except with a socket server attached and the book of the
    loan not stored: then the answer is 500 and the renewal is written.  In
    a reachable state every answer other than 200 leaves the database as it
    is. *)
Theorem renew_effect io now actor transactionId db :
  (code (Routes.post_renew io now actor transactionId db).1 = 200
   ∨ (Routes.post_renew io now actor transactionId db).2 ≠ db →
   ∃ t, transactions db !! transactionId = Some t
        ∧ Transaction.status t = Transaction.active
        ∧ Transaction.renewalCount t < 3
        ∧ (actor_id actor = Transaction.user t ∨ actor_role actor = User.admin)
        ∧ (Routes.post_renew io now actor transactionId db).2
          = mkDB (books db) (users db)
              (<[transactionId :=
                   Transaction.mk (Transaction.user t) (Transaction.book t)
                     (Transaction.type t) (Transaction.borrowDate t)
                     (Transaction.dueDate t + JS.loan_ms)
                     (Transaction.returnDate t) Transaction.renewed
                     (Transaction.fineAmount t) (Transaction.renewalCount t + 1)
                     (Transaction.processedBy t)]> (transactions db))
        ∧ (code (Routes.post_renew io now actor transactionId db).1 = 200
           ∨ (Routes.post_renew io now actor transactionId db).1
             = mkResponse 500 "Failed to renew book"
             ∧ io = true
             ∧ books db !! Transaction.book t = None))
  ∧ (reachable db →
     code (Routes.post_renew io now actor transactionId db).1 ≠ 200 →
     (Routes.post_renew io now actor transactionId db).2 = db).
Proof.
  split.
  - unfold Routes.post_renew.
    destruct (transactions db !! transactionId) as [t|];
      [|intros [H|H]; [discriminate H | done]].
    destruct (users db !! Transaction.user t);
      [|intros [H|H]; [discriminate H | done]].
    destruct (negb (bool_decide (actor_id actor = Transaction.user t))
              && negb (bool_decide (actor_role actor = User.admin))) eqn:Hauth;
      [intros [H|H]; [discriminate H | done]|].
    destruct (Transaction.renewBook now t) as [t1|] eqn:Hren;
      [|intros [H|H]; [discriminate H | done]].
    intros _. apply renewBook_Ok in Hren as (Hr & Hs & ->).
    exists t. split; [done|]. split; [done|]. split; [done|]. split.
    { apply andb_false_iff in Hauth as [H|H];
        apply negb_false_iff, bool_decide_eq_true in H; auto. }
    destruct (io && negb (bool_decide (is_Some (books db !! Transaction.book t))))
      eqn:Hio; simpl.
    + split; [done|]. right.
      apply andb_true_iff in Hio as [-> Hbk].
      apply negb_true_iff, bool_decide_eq_false in Hbk.
      split; [done|]. split; [done|]. by apply eq_None_not_Some.
    + auto.
  - intros Hreach. apply reachable_db_ok in Hreach as Hok.
    unfold Routes.post_renew.
    destruct (transactions db !! transactionId) as [t|] eqn:Hl; [|done].
    destruct (users db !! Transaction.user t); [|done].
    destruct (negb _ && negb _); [done|].
    destruct (Transaction.renewBook now t) as [t1|]; [|done].
    destruct (Hok _ _ Hl) as (_ & _ & Hb).
    rewrite (bool_decide_eq_true_2 _ Hb), andb_false_r. done.
Qed.

Lemma renew_effect_witness :
  reachable Run.renewed_once.2
  ∧ code Run.renewed_twice.1 ≠ 200
  ∧ Run.renewed_twice.2 = Run.renewed_once.2.
Proof.
  split; [exact reachable_renewed_once|]. split; [discriminate|].
  apply (proj2 (renew_effect true (Scenario.t0 + 2 * JS.day_ms)
                  (mkActor Scenario.reader User.member) 1%nat Run.renewed_once.2)
           reachable_renewed_once).
  discriminate.
Defined.

(** X11.  What a member may do.  For an actor whose role is [member]:
    issuing, returning, listing the overdue loans, updating and deleting a
    book leave the database as it is (the first three are answered 403); a
    renewal of somebody else's loan is not answered 200 and changes
    nothing; and a transaction is shown only to its borrower. *)
Theorem member_rights now tid actor bookId userId dueDate io transactionId body db :
  actor_role actor = User.member →
  Routes.post_issue now tid actor bookId userId dueDate db
  = (mkResponse 403 "Admin access required to issue books", db)
  ∧ Routes.post_return io now actor transactionId db
    = (mkResponse 403 "Admin access required to return books", db)
  ∧ Routes.get_overdue_list now actor db = (mkResponse 403 "Admin access required", [])
  ∧ (BookRoutes.put_book actor bookId body db).2 = db
  ∧ (BookRoutes.delete_book actor bookId db).2 = db
  ∧ (∀ t, transactions db !! transactionId = Some t →
          Transaction.user t ≠ actor_id actor →
          code (Routes.post_renew io now actor transactionId db).1 ≠ 200
          ∧ (Routes.post_renew io now actor transactionId db).2 = db)
  ∧ (∀ t, (Routes.get_transaction actor transactionId db).2 = Some t →
          Transaction.user t = actor_id actor).
Proof.
  intros Hrole.
  assert (bool_decide (actor_role actor = User.admin) = false) as Hna
    by (rewrite Hrole; done).
  unfold Routes.post_issue, Routes.post_return, Routes.get_overdue_list,
    BookRoutes.put_book, BookRoutes.delete_book, Routes.post_renew,
    Routes.get_transaction.
  rewrite !Hna. cbn [negb].
  split; [done|]. split; [done|]. split; [done|].
  split.
  { destruct (match BookRoutes.body_totalCopies body with
              | Some t => negb ((1 <=? t) && (t <=? 1000))
              | None => false
              end); done. }
  split; [done|]. split.
  - intros t Hl Hu. rewrite Hl.
    destruct (users db !! Transaction.user t); [|done].
    rewrite (bool_decide_eq_false_2 (actor_id actor = Transaction.user t))
      by congruence.
    done.
  - intros t H. destruct (transactions db !! transactionId) as [t0|]; [|done].
    destruct (users db !! Transaction.user t0); [|done].
    destruct (bool_decide (Transaction.user t0 = actor_id actor)) eqn:Hu;
      simpl in H; [|done].
    apply bool_decide_eq_true in Hu. congruence.
Qed.

Lemma member_rights_witness :
  actor_role (mkActor Scenario.reader User.member) = User.member
  ∧ Routes.post_issue Scenario.t0 1%nat (mkActor Scenario.reader User.member)
      Scenario.novel Scenario.reader None Scenario.db0
    = (mkResponse 403 "Admin access required to issue books", Scenario.db0).
Proof.
  split; [reflexivity|].
  apply (member_rights Scenario.t0 1%nat (mkActor Scenario.reader User.member)
           Scenario.novel Scenario.reader None true 1%nat
           (BookRoutes.mkBody None None None None None) Scenario.db0 eq_refl).
Defined.

(** ** Fines and days *)

Lemma ceil_div_bounds (a b : Z) :
  0 < b → (JS.ceil_div a b - 1) * b < a <= JS.ceil_div a b * b.
Proof.
  intros Hb. unfold JS.ceil_div.
  pose proof (Z.div_mod (- a) b ltac:(lia)) as Hdm.
  pose proof (Z.mod_pos_bound (- a) b Hb) as Hm.
  nia.
Qed.

Lemma ceil_div_mono (a a' b : Z) :
  0 < b → a <= a' → JS.ceil_div a b <= JS.ceil_div a' b.
Proof.
  intros Hb Ha. unfold JS.ceil_div.
  assert (- a' / b <= - a / b) by (apply Z.div_le_mono; lia). lia.
Qed.

Lemma day_ms_pos : 0 < JS.day_ms.
Proof. reflexivity. Qed.

(** X12.  What [calculateFine] assigns to an overdue transaction: the
    least number of whole days that covers the time past the due date, so
    at least 1 once the due date has passed; it never decreases as the clock
    advances. *)
Theorem fine_of_overdue (now now' : Z) (t : Transaction.doc) :
  Transaction.status t = Transaction.overdue →
  (Transaction.fineAmount (Transaction.calculateFine now t) - 1) * JS.day_ms
    < now - Transaction.dueDate t
    <= Transaction.fineAmount (Transaction.calculateFine now t) * JS.day_ms
  ∧ (Transaction.dueDate t < now →
     1 <= Transaction.fineAmount (Transaction.calculateFine now t))
  ∧ (now <= now' →
     Transaction.fineAmount (Transaction.calculateFine now t)
     <= Transaction.fineAmount (Transaction.calculateFine now' t)).
Proof.
  intros Hs. unfold Transaction.calculateFine.
  rewrite (bool_decide_eq_true_2 _ Hs). simpl.
  pose proof (ceil_div_bounds (now - Transaction.dueDate t) JS.day_ms day_ms_pos) as Hb.
  pose proof day_ms_pos as Hd.
  split; [lia|]. split.
  - intros Hlate. nia.
  - intros Hle.
    pose proof (ceil_div_mono (now - Transaction.dueDate t)
                  (now' - Transaction.dueDate t) JS.day_ms day_ms_pos ltac:(lia)).
    lia.
Qed.

Lemma fine_of_overdue_witness :
  Transaction.status Trace.overdue_loan = Transaction.overdue
  ∧ (Transaction.dueDate Trace.overdue_loan < Scenario.t0 + 15 * JS.day_ms →
     1 <= Transaction.fineAmount
            (Transaction.calculateFine (Scenario.t0 + 15 * JS.day_ms)
               Trace.overdue_loan)).
Proof.
  split; [reflexivity|].
  apply (fine_of_overdue (Scenario.t0 + 15 * JS.day_ms) (Scenario.t0 + 15 * JS.day_ms)
           Trace.overdue_loan eq_refl).
Defined.

(** X13.  The two virtuals: [daysOverdue] and [daysUntilDue] are never
    negative and never both positive; [daysOverdue] is positive exactly for
    an overdue transaction past its due date, where it is the fine
    [calculateFine] assigns; [daysUntilDue] is positive exactly for an
    active transaction before its due date. *)
Theorem days_virtuals (now : Z) (t : Transaction.doc) :
  0 <= Transaction.daysOverdue now t
  ∧ 0 <= Transaction.daysUntilDue now t
  ∧ (0 < Transaction.daysOverdue now t ↔
       Transaction.status t = Transaction.overdue ∧ Transaction.dueDate t < now)
  ∧ (0 < Transaction.daysUntilDue now t ↔
       Transaction.status t = Transaction.active ∧ now < Transaction.dueDate t)
  ∧ (Transaction.daysOverdue now t = 0 ∨ Transaction.daysUntilDue now t = 0)
  ∧ (0 < Transaction.daysOverdue now t →
     Transaction.fineAmount (Transaction.calculateFine now t)
     = Transaction.daysOverdue now t).
Proof.
  unfold Transaction.daysOverdue, Transaction.daysUntilDue, Transaction.calculateFine.
  pose proof (ceil_div_bounds (now - Transaction.dueDate t) JS.day_ms day_ms_pos) as H1.
  pose proof (ceil_div_bounds (Transaction.dueDate t - now) JS.day_ms day_ms_pos) as H2.
  pose proof day_ms_pos as Hd.
  destruct (bool_decide (Transaction.status t = Transaction.overdue)) eqn:Ho;
    [apply bool_decide_eq_true in Ho | apply bool_decide_eq_false in Ho];
  (destruct (bool_decide (Transaction.status t = Transaction.active)) eqn:Ha;
    [apply bool_decide_eq_true in Ha | apply bool_decide_eq_false in Ha]);
  try congruence;
  destruct (Transaction.dueDate t <? now) eqn:Hlt;
    [apply Z.ltb_lt in Hlt | apply Z.ltb_ge in Hlt | apply Z.ltb_lt in Hlt
     | apply Z.ltb_ge in Hlt | apply Z.ltb_lt in Hlt | apply Z.ltb_ge in Hlt];
  destruct (now <? Transaction.dueDate t) eqn:Hgt;
    try (apply Z.ltb_lt in Hgt); try (apply Z.ltb_ge in Hgt);
  simpl; repeat split; try lia; try nia; try (intros [? ?]; first [congruence | lia | nia]);
  try (intros ?; lia); try (left; lia); try (right; lia); try (left; reflexivity);
  try (right; reflexivity); try congruence.
Qed.

(** ** Who is listed and notified as overdue *)

Lemma findOverdue_active now c id t :
  (id, t) ∈ Transaction.findOverdue now c →
  c !! id = Some t
  ∧ Transaction.status t = Transaction.active ∧ Transaction.dueDate t < now.
Proof.
  intros H. apply find_spec in H as [Hl Hq].
  apply overdue_query_spec in Hq. done.
Qed.

(** X14.  The overdue list of [GET /overdue/list] holds transactions whose
    status is active, never one whose status is overdue; right after a
    sweep of a reachable state, at the same clock reading, it is empty. *)
Theorem overdue_list_holds_active now actor io db :
  (∀ id t, (id, t) ∈ (Routes.get_overdue_list now actor db).2 →
     transactions db !! id = Some t
     ∧ Transaction.status t = Transaction.active
     ∧ Transaction.dueDate t < now)
  ∧ (reachable db →
     (Routes.get_overdue_list now actor
        (AutomationService.checkOverdueBooks io now db).1).2 = []).
Proof.
  unfold Routes.get_overdue_list. split.
  - intros id t. destruct (negb _); simpl; [by intros ?%elem_of_nil|].
    apply findOverdue_active.
  - intros Hreach. destruct (negb _); simpl; [done|].
    apply findOverdue_after_sweep. by apply reachable_db_ok.
Qed.

Lemma overdue_list_holds_active_witness :
  reachable Trace.after_issue
  ∧ (Routes.get_overdue_list (Scenario.t0 + 15 * JS.day_ms) Scenario.librarian
       (AutomationService.checkOverdueBooks true (Scenario.t0 + 15 * JS.day_ms)
          Trace.after_issue).1).2 = [].
Proof.
  assert (reachable Trace.after_issue) as H
    by (apply reachable_step, reachable_init).
  split; [exact H|].
  apply (proj2 (overdue_list_holds_active (Scenario.t0 + 15 * JS.day_ms)
                  Scenario.librarian true Trace.after_issue) H).
Defined.

(** X15.  [sendOverdueNotifications] in a reachable state: every notice is
    for a stored transaction whose status is active, tells at least one
    day overdue and a fine of 0; no notice is for a transaction whose status
    is overdue, and right after a sweep at the same clock reading nothing is
    sent. *)
Theorem overdue_notices now io db :
  reachable db →
  (∀ n, n ∈ AutomationService.sendOverdueNotifications now db →
     ∃ t, transactions db !! AutomationService.no_transaction n = Some t
          ∧ Transaction.status t = Transaction.active
          ∧ AutomationService.no_user n = Transaction.user t
          ∧ 1 <= AutomationService.no_daysOverdue n
          ∧ AutomationService.no_fineAmount n = 0)
  ∧ AutomationService.sendOverdueNotifications now
      (AutomationService.checkOverdueBooks io now db).1 = [].
Proof.
  intros Hreach. apply reachable_db_ok in Hreach as Hok. split.
  - intros n Hn. unfold AutomationService.sendOverdueNotifications in Hn.
    apply list_elem_of_omap in Hn as ([id t] & Hin & Hsome).
    apply findOverdue_active in Hin as (Hl & Hs & Hd).
    destruct (users db !! Transaction.user t), (books db !! Transaction.book t);
      try discriminate.
    injection Hsome as <-. simpl. exists t.
    destruct (Hok id t Hl) as ((Hf & _) & _).
    repeat split; try done.
    pose proof (ceil_div_bounds (now - Transaction.dueDate t) JS.day_ms day_ms_pos).
    pose proof day_ms_pos. nia.
  - unfold AutomationService.sendOverdueNotifications.
    rewrite findOverdue_after_sweep by done. done.
Qed.

Lemma overdue_notices_witness :
  reachable Trace.after_issue
  ∧ AutomationService.sendOverdueNotifications (Scenario.t0 + 15 * JS.day_ms)
      (AutomationService.checkOverdueBooks true (Scenario.t0 + 15 * JS.day_ms)
         Trace.after_issue).1 = [].
Proof.
  assert (reachable Trace.after_issue) as H
    by (apply reachable_step, reachable_init).
  split; [exact H|].
  apply (proj2 (overdue_notices (Scenario.t0 + 15 * JS.day_ms) true
                  Trace.after_issue H)).
Defined.

(** ** The catalogue routes *)






(** X17.  Changing [totalCopies] with [PUT /:id]: on a book within its
    inventory bound, an update that carries [totalCopies = T] and is
    answered 200 stores [totalCopies = T] and
    [availableCopies = max(0, availableCopies + (T - totalCopies))]; the
    book is within its bound again, and the number of copies out on loan is
    unchanged as long as [T] is not below it. *)
Theorem put_totalCopies actor id body db b a t T :
  books db !! id = Some b →
  Book.availableCopies b = Some a →
  Book.totalCopies b = Some t →
  0 <= a <= t →
  BookRoutes.body_totalCopies body = Some T →
  code (BookRoutes.put_book actor id body db).1 = 200 →
  ∃ b', books (BookRoutes.put_book actor id body db).2 !! id = Some b'
        ∧ Book.totalCopies b' = Some T
        ∧ Book.availableCopies b' = Some (Z.max 0 (a + (T - t)))
        ∧ Book.inventory_ok b'
        ∧ (t - a <= T → T - Z.max 0 (a + (T - t)) = t - a).
Proof.
  intros Hb Ha Ht Hbound HT. unfold BookRoutes.put_book.
  rewrite HT, Hb, Ha, Ht.
  destruct ((1 <=? T) && (T <=? 1000)) eqn:Hvalid; simpl; [|discriminate].
  destruct (negb _); [discriminate|].
  destruct (BookRoutes.validate_update _); [|discriminate].
  intros _. simpl. rewrite lookup_insert_eq. eexists. split; [done|].
  unfold BookRoutes.apply_update. simpl.
  apply andb_true_iff in Hvalid as [H1 H2]. apply Z.leb_le in H1, H2.
  repeat split; try lia.
  exists (Z.max 0 (a + (T - t))), T. repeat split; lia.
Qed.

Lemma put_totalCopies_witness :
  books Scenario.issued.2 !! Scenario.novel
  = Some (Book.mk (Some true) (Some 1) (Some 0) (Some 1) (Some Scenario.t0))
  ∧ ∃ b', books (BookRoutes.put_book Scenario.librarian Scenario.novel
                   (BookRoutes.mkBody None (Some 3) None None None)
                   Scenario.issued.2).2 !! Scenario.novel = Some b'
          ∧ Book.totalCopies b' = Some 3
          ∧ Book.availableCopies b' = Some (Z.max 0 (0 + (3 - 1))).
Proof.
  split; [vm_compute; reflexivity|].
  destruct (put_totalCopies Scenario.librarian Scenario.novel
              (BookRoutes.mkBody None (Some 3) None None None) Scenario.issued.2
              (Book.mk (Some true) (Some 1) (Some 0) (Some 1) (Some Scenario.t0))
              0 1 3) as (b' & H1 & H2 & H3 & _).
  - vm_compute; reflexivity.
  - reflexivity.
  - reflexivity.
  - lia.
  - reflexivity.
  - vm_compute; reflexivity.
  - exists b'. done.
Defined.

(** ** The statistics of a user *)

Lemma count_mono (q1 q2 : Transaction.doc → bool) (c : gmap nat Transaction.doc) :
  (∀ t, q1 t = true → q2 t = true) →
  (length (Transaction.find q1 c) ≤ length (Transaction.find q2 c))%nat.
Proof.
  intros H. rewrite !find_length. apply map_subseteq_size.
  apply map_filter_subseteq_ext. intros i t _. simpl. apply H.
Qed.

Lemma fines_sum_zero (l : list (nat * Transaction.doc)) :
  (∀ kt, kt ∈ l → Transaction.fineAmount kt.2 = 0) →
  foldr (λ kt acc, Transaction.fineAmount kt.2 + acc) 0 l = 0.
Proof.
  induction l as [|kt l IH]; intros H; simpl; [done|].
  rewrite IH by (intros kt' Hin; apply H; by right).
  rewrite (H kt) by left. lia.
Qed.

(** X18.  The statistics of [GET /stats]: the overdue count is at most the
    currently-borrowed count, which is at most the total; in a reachable
    state the currently-borrowed count is at most 5 and the total of fines
    is 0. *)
Theorem stats_consistent (userId : nat) (db : DB) :
  (UserRoutes.overdueBooks (UserRoutes.get_stats userId db)
   ≤ UserRoutes.currentlyBorrowed (UserRoutes.get_stats userId db))%nat
  ∧ (UserRoutes.currentlyBorrowed (UserRoutes.get_stats userId db)
     ≤ UserRoutes.totalBorrowed (UserRoutes.get_stats userId db))%nat
  ∧ (reachable db →
     (UserRoutes.currentlyBorrowed (UserRoutes.get_stats userId db) ≤ 5)%nat
     ∧ UserRoutes.totalFines (UserRoutes.get_stats userId db) = 0).
Proof.
  unfold UserRoutes.get_stats. simpl. split; [|split].
  - apply count_mono. intros t H. apply andb_true_iff in H as [-> H].
    unfold Transaction.in_active_overdue. rewrite H. apply orb_true_r.
  - apply count_mono. intros t H. by apply andb_true_iff in H as [-> _].
  - intros Hreach. split.
    + apply (borrow_cap_invariant_aux db userId Hreach).
    + apply fines_sum_zero. intros [k t] Hin. simpl.
      apply find_spec in Hin as [Hl _].
      destruct (reachable_db_ok db Hreach k t Hl) as ((Hf & _) & _). done.
Qed.

Lemma stats_consistent_witness :
  reachable Trace.after_sweep
  ∧ UserRoutes.totalFines (UserRoutes.get_stats Scenario.reader Trace.after_sweep) = 0.
Proof.
  split; [exact reachable_after_sweep|].
  apply (proj2 (proj2 (proj2 (stats_consistent Scenario.reader Trace.after_sweep))
                  reachable_after_sweep)).
Defined.

(** ** Pages *)

Lemma ceil_div_lt (n a b : Z) : 0 < b → n < JS.ceil_div a b ↔ n * b < a.
Proof.
  intros Hb. pose proof (ceil_div_bounds a b Hb). split; intros; nia.
Qed.

Lemma not_nil_length {A} (l : list A) : l ≠ [] ↔ (0 < length l)%nat.
Proof. destruct l; simpl; split; try done; lia. Qed.

Lemma page_not_nil {A} (p limit : Z) (l : list A) :
  1 <= p → 1 <= limit →
  (Routes.paginate p limit l).1 ≠ [] ↔ (p - 1) * limit < Z.of_nat (length l).
Proof.
  intros Hp Hl. unfold Routes.paginate. simpl.
  rewrite not_nil_length, length_take, length_drop.
  assert (0 <= (p - 1) * limit) by nia.
  generalize dependent ((p - 1) * limit). intros s Hs. lia.
Qed.

Lemma pages_concat {A} (limit : Z) (l : list A) (n : nat) :
  1 <= limit →
  concat ((λ i, (Routes.paginate (Z.of_nat (S i)) limit l).1) <$> seq 0 n)
  = take (n * Z.to_nat limit) l.
Proof.
  intros Hl. induction n as [|n IH]; [done|].
  rewrite seq_S, fmap_app, concat_app, IH. simpl.
  rewrite app_nil_r. unfold Routes.paginate. simpl.
  replace (Z.to_nat ((Z.of_nat (S n) - 1) * limit)) with (n * Z.to_nat limit)%nat
    by nia.
  rewrite take_take_drop. f_equal. lia.
Qed.

(** X19.  The pages of the two list handlers, for [page >= 1] and
    [limit >= 1]: a page holds at most [limit] documents; it is non-empty
    exactly when [page <= totalPages]; [hasNextPage] is true exactly when
    the next page is non-empty; and pages 1 to [totalPages], one after the
    other, are the whole result, each document once and in order. *)
Theorem paginate_pages {A : Type} (page limit : Z) (sorted : list A) :
  1 <= page → 1 <= limit →
  (length (Routes.paginate page limit sorted).1 ≤ Z.to_nat limit)%nat
  ∧ (page <= Routes.totalPages (Routes.paginate page limit sorted).2 ↔
       (Routes.paginate page limit sorted).1 ≠ [])
  ∧ (Routes.hasNextPage (Routes.paginate page limit sorted).2 = true ↔
       (Routes.paginate (page + 1) limit sorted).1 ≠ [])
  ∧ concat ((λ i, (Routes.paginate (Z.of_nat (S i)) limit sorted).1)
              <$> seq 0 (Z.to_nat (Routes.totalPages
                                     (Routes.paginate page limit sorted).2)))
    = sorted.
Proof.
  intros Hp Hl.
  pose proof (ceil_div_bounds (Z.of_nat (length sorted)) limit ltac:(lia)) as Hc.
  split; [|split; [|split]].
  - unfold Routes.paginate. simpl. rewrite length_take. lia.
  - rewrite page_not_nil by done. simpl.
    rewrite <- (ceil_div_lt (page - 1)) by lia. lia.
  - rewrite page_not_nil by lia. simpl.
    rewrite Z.ltb_lt, ceil_div_lt by lia.
    replace (page + 1 - 1) with page by lia. done.
  - rewrite pages_concat by done. simpl. apply take_ge.
    set (c := JS.ceil_div (Z.of_nat (length sorted)) limit) in *.
    assert (0 <= c) by nia. nia.
Qed.

Lemma paginate_pages_witness :
  1 <= 2 ∧ 1 <= 2
  ∧ (Routes.hasNextPage (Routes.paginate 2 2 [10; 20; 30; 40; 50]).2 = true ↔
       (Routes.paginate (2 + 1) 2 [10; 20; 30; 40; 50]).1 ≠ []).
Proof.
  split; [lia|]. split; [lia|].
  apply (paginate_pages 2 2 [10; 20; 30; 40; 50]); lia.
Defined.

(** ** Saving twice, lending and taking back *)

(** X20.  Saving is idempotent: a book document that [save] wrote is
    accepted by [save] again and comes back unchanged, and so is a
    transaction document at the same clock reading. *)
Theorem save_idempotent (b b' : Book.doc) (isNew : bool) (now : Z)
    (t t' : Transaction.doc) :
  (Book.save b = Ok b' → Book.save b' = Ok b')
  ∧ (Transaction.save isNew now t = Ok t' → Transaction.save false now t' = Ok t').
Proof.
  split.
  - unfold Book.save, Book.validate, Book.pre_save, JS.gt, JS.lt.
    destruct b as [ia [tc|] [a|] bc lb]; simpl; try discriminate.
    destruct (1 <=? tc) eqn:H1; simpl; try discriminate.
    destruct (tc <=? 1000) eqn:H2; simpl; try discriminate.
    destruct (0 <=? a) eqn:H3; simpl; try discriminate.
    destruct (tc <? a) eqn:H4; intros [= <-]; simpl; rewrite H1, H2; simpl.
    + replace (0 <=? tc) with true by (symmetry; apply Z.leb_le; lia).
      rewrite Z.ltb_irrefl. done.
    + rewrite H3, H4. done.
  - unfold Transaction.save.
    destruct (Transaction.validate t) eqn:Hv; [|discriminate].
    intros [= <-].
    assert (Transaction.validate
              (Transaction.pre_save_status now (Transaction.pre_save_dueDate isNew t))
            = true) as ->.
    { unfold Transaction.pre_save_status, Transaction.pre_save_dueDate.
      destruct (isNew && _); destruct (_ && _ && _); exact Hv. }
    unfold Transaction.pre_save_dueDate at 1. simpl. f_equal.
    generalize (Transaction.pre_save_dueDate isNew t). intros x.
    unfold Transaction.pre_save_status.
    destruct (bool_decide (Transaction.status x = Transaction.active)
              && (Transaction.dueDate x <? now)
              && bool_decide (Transaction.returnDate x = None)) eqn:Hc; simpl.
    + done.
    + rewrite Hc. done.
Qed.

Lemma save_idempotent_witness :
  Book.save (Book.mk (Some true) (Some 1) (Some 5) (Some 0) None)
  = Ok (Book.mk (Some true) (Some 1) (Some 1) (Some 0) None)
  ∧ Book.save (Book.mk (Some true) (Some 1) (Some 1) (Some 0) None)
    = Ok (Book.mk (Some true) (Some 1) (Some 1) (Some 0) None).
Proof.
  split; [reflexivity|].
  apply (proj1 (save_idempotent (Book.mk (Some true) (Some 1) (Some 5) (Some 0) None)
                  (Book.mk (Some true) (Some 1) (Some 1) (Some 0) None)
                  false 0 Trace.overdue_loan Trace.overdue_loan)).
  reflexivity.
Defined.

(** X21.  Lending and taking back on the model: for a book within its
    inventory bound, [returnBook] on the document that [borrowBook] wrote
    succeeds and restores [availableCopies]; the total is unchanged and
    [borrowCount] keeps the increment. *)
Theorem borrow_then_return (now : Z) (b b1 : Book.doc) :
  Book.inventory_ok b →
  Book.borrowBook now b = Ok b1 →
  ∃ b2, Book.returnBook b1 = Ok b2
        ∧ Book.availableCopies b2 = Book.availableCopies b
        ∧ Book.totalCopies b2 = Book.totalCopies b
        ∧ Book.isActive b2 = Book.isActive b
        ∧ Book.borrowCount b2 = JS.add (Book.borrowCount b) 1.
Proof.
  intros (a & t & Ha & Ht & Hbound) Hborrow.
  pose proof Hborrow as Hvalid.
  apply borrowBook_Ok in Hborrow as (a0 & t0 & Ha0 & Ht0 & Hpos & ->).
  rewrite Ha in Ha0. rewrite Ht in Ht0. injection Ha0 as <-. injection Ht0 as <-.
  unfold Book.borrowBook in Hvalid. destruct (Book.canBorrow b); [|discriminate].
  unfold Book.save, Book.validate in Hvalid. simpl in Hvalid.
  rewrite Ht, Ha in Hvalid. simpl in Hvalid.
  destruct (1 <=? t) eqn:H1; [|discriminate].
  destruct (t <=? 1000) eqn:H2; [|discriminate]. clear Hvalid.
  replace (Z.min (a - 1) t) with (a - 1) by lia.
  unfold Book.returnBook, Book.save, Book.validate, Book.pre_save, JS.gt, JS.lt.
  simpl.
  replace (a - 1 <? t) with true by (symmetry; apply Z.ltb_lt; lia).
  rewrite H1, H2. simpl.
  replace (0 <=? a - 1 + 1) with true by (symmetry; apply Z.leb_le; lia).
  replace (t <? a - 1 + 1) with false by (symmetry; apply Z.ltb_ge; lia).
  eexists. split; [done|]. simpl. rewrite Ha, Ht.
  repeat split. f_equal. lia.
Qed.

Lemma borrow_then_return_witness :
  Book.inventory_ok (Book.mk (Some true) (Some 1) (Some 1) (Some 0) None)
  ∧ ∃ b2, Book.returnBook
            (Book.mk (Some true) (Some 1) (Some 0) (Some 1) (Some Scenario.t0))
          = Ok b2
          ∧ Book.availableCopies b2 = Some 1.
Proof.
  assert (Book.inventory_ok (Book.mk (Some true) (Some 1) (Some 1) (Some 0) None)) as H.
  { exists 1, 1. repeat split; lia. }
  split; [exact H|].
  destruct (borrow_then_return Scenario.t0
              (Book.mk (Some true) (Some 1) (Some 1) (Some 0) None)
              (Book.mk (Some true) (Some 1) (Some 0) (Some 1) (Some Scenario.t0))
              H eq_refl) as (b2 & H1 & H2 & _).
  exists b2. split; [exact H1 | exact H2].
Defined.

(** ** An update that leaves the inventory bound *)

(** [PUT /:id] without [totalCopies] stores the [availableCopies] of the
    body as it is, whatever the total: the update validators only want it
    to be at least 0, and the cap of [pre('save')] does not run. *)
Lemma put_availableCopies_unchecked actor id body db b v :
  actor_role actor = User.admin →
  books db !! id = Some b →
  BookRoutes.body_totalCopies body = None →
  BookRoutes.body_availableCopies body = Some v →
  0 <= v →
  (BookRoutes.put_book actor id body db).1
  = mkResponse 200 "Book updated successfully"
  ∧ ∃ b', books (BookRoutes.put_book actor id body db).2 !! id = Some b'
          ∧ Book.availableCopies b' = Some v
          ∧ Book.totalCopies b' = Book.totalCopies b.
Proof.
  intros Hadmin Hb Ht Ha Hv. unfold BookRoutes.put_book, BookRoutes.validate_update.
  rewrite Ht, Ha, Hb, (bool_decide_eq_true_2 _ Hadmin). simpl.
  replace (0 <=? v) with true by (symmetry; by apply Z.leb_le).
  rewrite Ht. simpl.
  split; [done|]. rewrite lookup_insert_eq. eexists. split; [done|].
  unfold BookRoutes.apply_update. rewrite Ht, Ha. done.
Qed.

(** C7 at the failing input: every book of the small library is within its
    bound; an admin's [PUT /:id] with body [{availableCopies: 50}] on the
    novel is answered 200 and stores 50 available copies of 1; the stored
    books are no longer all within the bound. *)
Theorem put_stores_more_than_total :
  books_ok Scenario.db0
  ∧ overstocked.1 = mkResponse 200 "Book updated successfully"
  ∧ books overstocked.2 !! Scenario.novel
    = Some (Book.mk (Some true) (Some 1) (Some 50) (Some 0) None)
  ∧ ¬ books_ok overstocked.2.
Proof.
  split; [exact books_ok_db0|]. split; [vm_compute; reflexivity|].
  split; [vm_compute; reflexivity|].
  intros H.
  destruct (H Scenario.novel (Book.mk (Some true) (Some 1) (Some 50) (Some 0) None))
    as (a & t & Ha & Ht & Hbound); [vm_compute; reflexivity|].
  simpl in Ha, Ht. injection Ha as <-. injection Ht as <-. lia.
Qed.
